(** * Haar discrete wavelet transform over panels

    A shallow embedding of [sktime/transformations/panel/dwt.py]
    (class [DWTTransformer]) together with the properties its
    specification states about it.

    The file has two parts.  The first holds the embedding:
    - the coefficient engine and the per-instance algorithm as functions
      on lists, in an error monad ([result]);
    - [_transform] on arrays given by a shape and row-major data;
    - module [Store]: the same program with its lists and array buffers
      as objects in a heap, changed in place as Python does;
    - module [Broadcast]: the vectorization of a single-series estimator
      over a panel, as the specification describes it.
    The second part holds the lemmas and the theorems, one per claim of
    the specification, each introduced by a comment naming the claim.

    Python lists and one-dimensional array rows are Rocq lists, read with
    stdpp's lookup [!!]; an out-of-range subscript raises [IndexError] as
    in Python.  The numbers are kept abstract behind the class [Scalar],
    with two instances: IEEE binary64 (what Python computes with) and the
    real numbers (the arithmetic the algebraic statements are about). *)

From Stdlib Require Import PrimFloat.
From Stdlib Require Import Reals Lra ZArith Lia.
From stdpp Require Import base list gmap strings.

Local Open Scope nat_scope.

(** ** Exceptions and the error monad *)

Inductive exn : Type :=
| ValueError (msg : string)
| TypeError (msg : string)
| IndexError
| AttributeError
| ShapeError
| SystemError (msg : string)
| BroadcastFailure (instance : nat) (cause : exn).

Inductive result (A : Type) : Type :=
| Ok (a : A)
| Raise (e : exn).

Arguments Ok {A} a.
Arguments Raise {A} e.

#[global] Instance result_ret : MRet result := fun A a => Ok a.

#[global] Instance result_bind : MBind result := fun A B f m =>
  match m with
  | Ok a => f a
  | Raise e => Raise e
  end.

Definition is_ok {A} (r : result A) : bool :=
  match r with Ok _ => true | Raise _ => false end.

(** ** Numbers

    The source only adds, subtracts and divides, and uses the constant
    [math.sqrt(2)]. *)

Class Scalar (T : Type) : Type := {
  fadd : T -> T -> T;
  fsub : T -> T -> T;
  fdiv : T -> T -> T;
  sqrt2 : T
}.

(** Python floats: IEEE 754 binary64, round to nearest even. *)
#[global] Instance float_scalar : Scalar float := {|
  fadd := PrimFloat.add;
  fsub := PrimFloat.sub;
  fdiv := PrimFloat.div;
  sqrt2 := PrimFloat.sqrt 2%float
|}.

(** Exact real arithmetic. *)
#[global] Instance real_scalar : Scalar R := {|
  fadd := Rplus;
  fsub := Rminus;
  fdiv := Rdiv;
  sqrt2 := sqrt 2%R
|}.

(** ** Coefficient engine: one decomposition level *)

Section Engine.
Context {T : Type} `{Scalar T}.

(** [arr[i]] for [0 <= i]. *)
Definition getitem (arr : list T) (i : nat) : result T :=
  match arr !! i with
  | Some v => Ok v
  | None => Raise IndexError
  end.

(** The loop the two functions below share, with [op] the sum or the
    difference:
    [for x in range(..): new.append(op(arr[2*x], arr[2*x+1]) / math.sqrt(2))] *)
Fixpoint level_loop (op : T -> T -> T) (arr : list T) (xs : list nat)
    (new : list T) : result (list T) :=
  match xs with
  | [] => Ok new
  | x :: xs' =>
      a ← getitem arr (2 * x);
      b ← getitem arr (2 * x + 1);
      level_loop op arr xs' (new ++ [fdiv (op a b) sqrt2])
  end.

(** [range(math.floor(len(arr) / 2))] *)
Definition half_range (arr : list T) : list nat :=
  seq 0 (length arr / 2).

Definition _get_approx_coefficients (arr : list T) : result (list T) :=
  if length arr =? 1 then v ← getitem arr 0; Ok [v]
  else level_loop fadd arr (half_range arr) [].

Definition _get_wavelet_coefficients (arr : list T) : result (list T) :=
  if length arr =? 1 then v ← getitem arr 0; Ok [v]
  else level_loop fsub arr (half_range arr) [].

End Engine.

(** ** The parameter [num_levels]

    [self.num_levels] is whatever object the constructor received. *)

Inductive pyobj : Type :=
| PyInt (z : Z)
| PyBool (b : bool)
| PyFloat (f : float)
| PyStr (s : string)
| PyNone.

Coercion PyInt : Z >-> pyobj.

(** [type(o).__name__] *)
Definition type_name (o : pyobj) : string :=
  match o with
  | PyInt _ => "int"
  | PyBool _ => "bool"
  | PyFloat _ => "float"
  | PyStr _ => "str"
  | PyNone => "NoneType"
  end.

(** [isinstance(o, int)], with the integer value; [bool] is a subclass of
    [int]. *)
Definition as_int (o : pyobj) : option Z :=
  match o with
  | PyInt z => Some z
  | PyBool b => Some (if b then 1 else 0)%Z
  | _ => None
  end.

(** [o == 0] *)
Definition py_eq_zero (o : pyobj) : bool :=
  match o with
  | PyInt z => (z =? 0)%Z
  | PyBool b => negb b
  | PyFloat f => (f =? 0)%float
  | _ => false
  end.

(** The number of items of [range(o)]. *)
Definition py_range (o : pyobj) : result nat :=
  match as_int o with
  | Some z => Ok (Z.to_nat z)
  | None =>
      Raise (TypeError ("'" +:+ type_name o +:+
                        "' object cannot be interpreted as an integer"))
  end.

Definition _check_parameters (num_levels : pyobj) : result unit :=
  match as_int num_levels with
  | Some z =>
      if (z <=? -1)%Z
      then Raise (ValueError ("num_levels must have the value" +:+ "of at least 0"))
      else Ok tt
  | None =>
      Raise (TypeError ("num_levels must be an 'int'. Found" +:+ "'" +:+
                        type_name num_levels +:+ "' instead."))
  end.

(** The specification files both exceptions of [_check_parameters]
    under one [ConfigurationError], with two variants. *)
Inductive configuration_error : Type :=
| TypeMismatch
| OutOfRange.

Definition configuration_error_of (e : exn) : option configuration_error :=
  match e with
  | TypeError _ => Some TypeMismatch
  | ValueError _ => Some OutOfRange
  | _ => None
  end.

(** ** Wavelet transformer: the per-instance algorithm *)

Section Transformer.
Context {T : Type} `{Scalar T}.

(** [for _ in range(n)]: the loop state is [current], [approx] (which is
    [None] before the first pass) and the accumulator [coeffs].  The lists
    returned by the engine are fresh, so reversing them in place is [rev]. *)
Fixpoint levels_loop (n : nat) (current : list T) (approx : option (list T))
    (coeffs : list T) : result (option (list T) * list T) :=
  match n with
  | O => Ok (approx, coeffs)
  | S n' =>
      a ← _get_approx_coefficients current;
      wav_coeffs ← _get_wavelet_coefficients current;
      levels_loop n' a (Some a) (coeffs ++ rev wav_coeffs)
  end.

(** The body of [for x in data] in [_extract_wavelet_coefficients].
    [range] of a negative number is empty, and then [approx.reverse()] is
    called on [None]. *)
Definition extract_instance (num_levels : pyobj) (x : list T) : result (list T) :=
  if py_eq_zero num_levels then Ok x
  else
    n ← py_range num_levels;
    '(approx, coeffs) ← levels_loop n x None [];
    match approx with
    | None => Raise AttributeError
    | Some a => Ok (rev (coeffs ++ rev a))
    end.

Fixpoint extract_loop (num_levels : pyobj) (data : list (list T))
    (res : list (list T)) : result (list (list T)) :=
  match data with
  | [] => Ok res
  | x :: data' =>
      c ← extract_instance num_levels x;
      extract_loop num_levels data' (res ++ [c])
  end.

Definition _extract_wavelet_coefficients (num_levels : pyobj)
    (data : list (list T)) : result (list (list T)) :=
  extract_loop num_levels data [].

End Transformer.

Arguments extract_instance {T _} num_levels%_Z x.
Arguments _extract_wavelet_coefficients {T _} num_levels%_Z data.

(** ** Arrays and the transform of a panel *)

(** A NumPy array: its shape and its elements in row-major order. *)
Record ndarray (T : Type) : Type := NdArray {
  nd_shape : list nat;
  nd_data : list T
}.

Arguments NdArray {T} nd_shape nd_data.
Arguments nd_shape {T} _.
Arguments nd_data {T} _.

Section Transform.
Context {T : Type} `{Scalar T}.

(** Modelled from the spec: the Format Adapter
    [convert(X, from_type="numpy3D", to_type="numpyflat", as_scitype="Panel")],
    whose code ([sktime.datatypes]) is not among the sources.  Section 4.3:
    a lossless conversion from the dense (instances, variables, timepoints)
    array to the (instances, variables * timepoints) one, failing with a
    [ShapeError] when the source is not such a dense array. *)
Definition convert_numpy3D_to_numpyflat (X : ndarray T) : result (ndarray T) :=
  match nd_shape X with
  | [n; v; t] =>
      if length (nd_data X) =? n * v * t
      then Ok (NdArray [n; v * t] (nd_data X))
      else Raise ShapeError
  | _ => Raise ShapeError
  end.

(** [for x in data] over a two-dimensional array yields its rows. *)
Definition rows (a : ndarray T) : list (list T) :=
  match nd_shape a with
  | [n; w] => map (fun i => take w (drop (i * w) (nd_data a))) (seq 0 n)
  | _ => []
  end.

(** [np.asarray] of a list of sequences (NumPy, an external library): a
    two-dimensional array when the sequences have one length, an array of
    shape [(0,)] for the empty list, and an error for ragged input. *)
Definition np_asarray (res : list (list T)) : result (ndarray T) :=
  match res with
  | [] => Ok (NdArray [0] [])
  | r :: _ =>
      if forallb (fun r' => length r' =? length r) res
      then Ok (NdArray [length res; length r] (concat res))
      else Raise (ValueError "inhomogeneous shape")
  end.

(** [a.shape[i]] *)
Definition shape_at (a : ndarray T) (i : nat) : result nat :=
  match nd_shape a !! i with
  | Some d => Ok d
  | None => Raise IndexError
  end.

(** [a.reshape(shape)] *)
Definition np_reshape (a : ndarray T) (shape : list nat) : result (ndarray T) :=
  if length (nd_data a) =? foldr Nat.mul 1 shape
  then Ok (NdArray shape (nd_data a))
  else Raise (ValueError "cannot reshape array").

Definition _transform (num_levels : pyobj) (X : ndarray T) : result (ndarray T) :=
  _ ← _check_parameters num_levels;
  arr ← convert_numpy3D_to_numpyflat X;
  transformedData ← _extract_wavelet_coefficients num_levels (rows arr);
  transformedData ← np_asarray transformedData;
  s0 ← shape_at transformedData 0;
  s1 ← shape_at transformedData 1;
  np_reshape transformedData [s0; s1; 1].

End Transform.

Arguments _transform {T _} num_levels%_Z X.

(** ** The same program over a store

    The functions above treat every list as a value.  In Python the lists
    are objects that [append], [extend] and [reverse] change in place, the
    rows of an array are windows onto the memory of that array, and
    [current = approx] makes two names for one list.  This second
    embedding keeps the objects in a heap, so that what the program
    writes to, and what it only reads, can be stated. *)

Module Store.

Definition loc : Type := positive.

(** A sequence a variable may hold: a Python list, or a one-dimensional
    window of [len] elements, starting at [off], onto an array buffer. *)
Inductive seqref : Type :=
| SList (l : loc)
| SRow (b : loc) (off len : nat).

(** A NumPy array object: a window onto a buffer, with a shape. *)
Record ndview : Type := NdView {
  v_buf : loc;
  v_off : nat;
  v_shape : list nat
}.

(** The statements of [_transform] that follow the parameter check. *)
Inductive step : Type :=
| StepConvert
| StepExtract
| StepAsarray
| StepReshape.

Section Store.
Context {T : Type} `{Scalar T}.

Inductive obj : Type :=
| PyList (items : list T)
| NdBuffer (data : list T).

Record state : Type := State {
  heap : gmap loc obj;
  steps : list step
}.

(** Computations that read and write the store and may raise; the store
    survives an exception. *)
Definition M (A : Type) : Type := state -> result A * state.

Definition ret {A} (a : A) : M A := fun st => (Ok a, st).

Definition bind {A B} (m : M A) (f : A -> M B) : M B := fun st =>
  match m st with
  | (Ok a, st') => f a st'
  | (Raise e, st') => (Raise e, st')
  end.

Definition raise {A} (e : exn) : M A := fun st => (Raise e, st).

Definition lift {A} (r : result A) : M A := fun st => (r, st).

Definition log (s : step) : M unit := fun st =>
  (Ok tt, State (heap st) (steps st ++ [s])).

Definition alloc (o : obj) : M loc := fun st =>
  let l := fresh (dom (heap st)) in
  (Ok l, State (<[l := o]> (heap st)) (steps st)).

Definition read_list (l : loc) : M (list T) := fun st =>
  match heap st !! l with
  | Some (PyList items) => (Ok items, st)
  | Some (NdBuffer _) => (Raise AttributeError, st)
  | None => (Raise (SystemError "dangling reference"), st)
  end.

Definition read_buffer (b : loc) : M (list T) := fun st =>
  match heap st !! b with
  | Some (NdBuffer data) => (Ok data, st)
  | Some (PyList _) => (Raise AttributeError, st)
  | None => (Raise (SystemError "dangling reference"), st)
  end.

Definition write_list (l : loc) (items : list T) : M unit := fun st =>
  (Ok tt, State (<[l := PyList items]> (heap st)) (steps st)).

End Store.

Arguments obj T : clear implicits.
Arguments state T : clear implicits.
Arguments M T A : clear implicits.

Notation "x <- m ;; k" := (bind m (fun x => k))
  (at level 100, m at next level, right associativity,
   format "x  <-  m ;;  '/' k").
Notation "m ;;; k" := (bind m (fun _ => k))
  (at level 100, right associativity, format "m ;;;  '/' k").

Section Program.
Context {T : Type} `{Scalar T}.

(** [l.append(v)], [l.reverse()], [l.extend(src)] *)
Definition list_append (l : loc) (v : T) : M T unit :=
  items <- read_list l;; write_list l (items ++ [v]).

Definition list_reverse (l : loc) : M T unit :=
  items <- read_list l;; write_list l (rev items).

Definition list_extend (l src : loc) : M T unit :=
  more <- read_list src;;
  items <- read_list l;;
  write_list l (items ++ more).

(** The elements of a sequence at this moment, [len(s)] and [s[i]]. *)
Definition seq_items (s : seqref) : M T (list T) :=
  match s with
  | SList l => read_list l
  | SRow b off len => data <- read_buffer b;; ret (take len (drop off data))
  end.

Definition seq_len (s : seqref) : M T nat :=
  items <- seq_items s;; ret (length items).

Definition seq_getitem (s : seqref) (i : nat) : M T T :=
  items <- seq_items s;;
  match items !! i with
  | Some v => ret v
  | None => raise IndexError
  end.

Fixpoint level_loop (op : T -> T -> T) (arr : seqref) (xs : list nat)
    (new : loc) : M T unit :=
  match xs with
  | [] => ret tt
  | x :: xs' =>
      a <- seq_getitem arr (2 * x);;
      b <- seq_getitem arr (2 * x + 1);;
      list_append new (fdiv (op a b) sqrt2);;;
      level_loop op arr xs' new
  end.

Definition _get_approx_coefficients (arr : seqref) : M T loc :=
  new <- alloc (PyList []);;
  n <- seq_len arr;;
  if n =? 1 then v <- seq_getitem arr 0;; alloc (PyList [v])
  else level_loop fadd arr (seq 0 (n / 2)) new;;; ret new.

Definition _get_wavelet_coefficients (arr : seqref) : M T loc :=
  new <- alloc (PyList []);;
  n <- seq_len arr;;
  if n =? 1 then v <- seq_getitem arr 0;; alloc (PyList [v])
  else level_loop fsub arr (seq 0 (n / 2)) new;;; ret new.

(** [for _ in range(n)]; after [current = approx] both names denote the
    list at [a]. *)
Fixpoint levels_loop (n : nat) (current : seqref) (approx : option loc)
    (coeffs : loc) : M T (option loc) :=
  match n with
  | O => ret approx
  | S n' =>
      a <- _get_approx_coefficients current;;
      wav_coeffs <- _get_wavelet_coefficients current;;
      list_reverse wav_coeffs;;;
      list_extend coeffs wav_coeffs;;;
      levels_loop n' (SList a) (Some a) coeffs
  end.

(** The body of [for x in data]: what is appended to [res] is [x] itself
    when [num_levels == 0], and the new list [coeffs] otherwise. *)
Definition extract_instance (num_levels : pyobj) (x : seqref) : M T seqref :=
  if py_eq_zero num_levels then ret x
  else
    coeffs <- alloc (PyList []);;
    n <- lift (py_range num_levels);;
    approx <- levels_loop n x None coeffs;;
    match approx with
    | None => raise AttributeError
    | Some a =>
        list_reverse a;;;
        list_extend coeffs a;;;
        list_reverse coeffs;;;
        ret (SList coeffs)
    end.

(** [res] is local to the call and holds references. *)
Fixpoint extract_loop (num_levels : pyobj) (data : list seqref)
    (res : list seqref) : M T (list seqref) :=
  match data with
  | [] => ret res
  | x :: data' =>
      c <- extract_instance num_levels x;;
      extract_loop num_levels data' (res ++ [c])
  end.

Definition _extract_wavelet_coefficients (num_levels : pyobj)
    (data : list seqref) : M T (list seqref) :=
  extract_loop num_levels data [].

(** Modelled from the spec: the Format Adapter [convert] from "numpy3D"
    to "numpyflat", whose code is not among the sources (section 4.3).
    The flat array it returns is taken to share the memory of [X], as a
    NumPy reshape does; a converter that copies writes even less. *)
Definition convert_numpy3D_to_numpyflat (X : ndview) : M T ndview :=
  match v_shape X with
  | [n; v; t] =>
      data <- read_buffer (v_buf X);;
      if v_off X + n * v * t <=? length data
      then ret (NdView (v_buf X) (v_off X) [n; v * t])
      else raise ShapeError
  | _ => raise ShapeError
  end.

(** The rows of a two-dimensional array are windows onto its buffer. *)
Definition rows (a : ndview) : list seqref :=
  match v_shape a with
  | [n; w] => map (fun i => SRow (v_buf a) (v_off a + i * w) w) (seq 0 n)
  | _ => []
  end.

Fixpoint read_all (res : list seqref) : M T (list (list T)) :=
  match res with
  | [] => ret []
  | s :: res' =>
      items <- seq_items s;;
      rest <- read_all res';;
      ret (items :: rest)
  end.

(** [np.asarray] copies the sequences into a new buffer. *)
Definition np_asarray (res : list seqref) : M T ndview :=
  contents <- read_all res;;
  match contents with
  | [] => b <- alloc (NdBuffer []);; ret (NdView b 0 [0])
  | r :: _ =>
      if forallb (fun r' => length r' =? length r) contents
      then b <- alloc (NdBuffer (concat contents));;
           ret (NdView b 0 [length contents; length r])
      else raise (ValueError "inhomogeneous shape")
  end.

Definition shape_at (a : ndview) (i : nat) : M T nat :=
  match v_shape a !! i with
  | Some d => ret d
  | None => raise IndexError
  end.

(** [a.reshape(shape)] of a contiguous array is a window onto the same
    buffer. *)
Definition np_reshape (a : ndview) (shape : list nat) : M T ndview :=
  if foldr Nat.mul 1 (v_shape a) =? foldr Nat.mul 1 shape
  then ret (NdView (v_buf a) (v_off a) shape)
  else raise (ValueError "cannot reshape array").

Definition _transform (num_levels : pyobj) (X : ndview) : M T ndview :=
  lift (_check_parameters num_levels);;;
  log StepConvert;;;
  arr <- convert_numpy3D_to_numpyflat X;;
  log StepExtract;;;
  transformedData <- _extract_wavelet_coefficients num_levels (rows arr);;
  log StepAsarray;;;
  transformedData <- np_asarray transformedData;;
  log StepReshape;;;
  s0 <- shape_at transformedData 0;;
  s1 <- shape_at transformedData 1;;
  np_reshape transformedData [s0; s1; 1].

End Program.

Arguments extract_instance {T _} num_levels%_Z x.
Arguments _extract_wavelet_coefficients {T _} num_levels%_Z data.
Arguments _transform {T _} num_levels%_Z X.

Section Specifications.
Context {T : Type} `{Scalar T}.

(** [frames h0 m Q]: run from any store that contains the objects of
    [h0] unchanged, [m] ends in such a store, and a value it returns
    satisfies [Q]. *)
Definition frames {A} (h0 : gmap loc (obj T)) (m : M T A) (Q : A -> Prop) : Prop :=
  forall st, h0 ⊆ heap st ->
    h0 ⊆ heap (m st).2 /\ forall a, (m st).1 = Ok a -> Q a.

(** The object a sequence lives in. *)
Definition seq_loc (s : seqref) : loc :=
  match s with
  | SList l => l
  | SRow b _ _ => b
  end.

(** The elements a sequence denotes in a store. *)
Definition seq_denotes (st : state T) (s : seqref) (items : list T) : Prop :=
  match s with
  | SList l => heap st !! l = Some (PyList items)
  | SRow b off len =>
      exists data, heap st !! b = Some (NdBuffer data) /\
                   off + len <= length data /\
                   items = take len (drop off data)
  end.

(** The list, if any, the variable [approx] denotes; it is never the
    accumulator [coeffs]. *)
Definition approx_denotes (st : state T) (coeffs : loc)
    (approx : option loc) (items : option (list T)) : Prop :=
  match approx, items with
  | None, None => True
  | Some a, Some ai => heap st !! a = Some (PyList ai) /\ a <> coeffs
  | _, _ => False
  end.

(** The array value a view denotes in a store. *)
Definition denotes (st : state T) (X : ndview) (a : ndarray T) : Prop :=
  exists data,
    heap st !! v_buf X = Some (NdBuffer data) /\
    nd_shape a = v_shape X /\
    length (nd_data a) = foldr Nat.mul 1 (nd_shape a) /\
    v_off X + length (nd_data a) <= length data /\
    nd_data a = take (length (nd_data a)) (drop (v_off X) data).

End Specifications.

End Store.

(** ** Broadcasting a single-series estimator over a panel

    The forecasting base class, the converters and the validator of
    [sktime.datatypes] and the ARIMA forecaster are not among the
    sources; only the test [test_vectorization_series_to_panel] is.  The
    definitions of this module follow the specification (sections 3, 4.4
    and 6). *)

Module Broadcast.

(** The representation tags of the test's [PANEL_MTYPES]. *)
Inductive mtype : Type :=
| pd_multiindex
| nested_univ
| numpy3D.

(** What the validator reports about a valid panel. *)
Record metadata : Type := Metadata {
  n_instances : nat;
  is_equal_length : bool
}.

Section Panels.
Context {T : Type}.

(** Modelled from the spec: the panel of section 3, instances holding
    variables holding observations, in the three representations the test
    names: a nested table with one series per cell, a dense array of
    shape (instances, variables, timepoints), and a long table with one
    row per (instance, timepoint) carrying one value per variable. *)
Inductive panel : Type :=
| NestedUniv (cells : list (list (list T)))
| Numpy3D (a : ndarray T)
| PdMultiindex (table : list (nat * nat * list T)).

Definition mtype_of (p : panel) : mtype :=
  match p with
  | NestedUniv _ => nested_univ
  | Numpy3D _ => numpy3D
  | PdMultiindex _ => pd_multiindex
  end.

Definition mtype_eqb (m1 m2 : mtype) : bool :=
  match m1, m2 with
  | pd_multiindex, pd_multiindex
  | nested_univ, nested_univ
  | numpy3D, numpy3D => true
  | _, _ => false
  end.

(** All the lists have the length [n]. *)
Definition all_length {A} (n : nat) (ls : list (list A)) : bool :=
  forallb (fun l => length l =? n) ls.

(** The length of the first list, 0 when there is none. *)
Definition head_length {A} (ls : list (list A)) : nat :=
  match ls with
  | [] => 0
  | l :: _ => length l
  end.

(** The first [t] columns of a list of rows, as rows. *)
Fixpoint transpose (t : nat) (m : list (list T)) : list (list T) :=
  match t with
  | O => []
  | S t' => concat (map (take 1) m) :: transpose t' (map (drop 1) m)
  end.

(** [n] consecutive chunks of [w] elements. *)
Definition chunks (n w : nat) (d : list T) : list (list T) :=
  map (fun i => take w (drop (i * w) d)) (seq 0 n).

(** The rows of one instance of the long table, from timepoint [j]. *)
Fixpoint timed_rows (i j : nat) (vals : list (list T))
    : list (nat * nat * list T) :=
  match vals with
  | [] => []
  | v :: vals' => (i, j, v) :: timed_rows i (S j) vals'
  end.

Fixpoint long_rows (i : nat) (insts : list (list (list T)))
    : list (nat * nat * list T) :=
  match insts with
  | [] => []
  | inst :: rest =>
      timed_rows i 0 (transpose (head_length inst) inst) ++ long_rows (S i) rest
  end.

(** Modelled from the spec: the Representation converter of section 6,
    from instances to a representation.  The dense array needs every
    series of one length and every instance of one width; the long table
    needs the variables of an instance to have one length; otherwise the
    conversion fails with a [ShapeError] (sections 4.3 and 7). *)
Definition encode (m : mtype) (insts : list (list (list T))) : result panel :=
  match m with
  | nested_univ => Ok (NestedUniv insts)
  | numpy3D =>
      let v := head_length insts in
      let t := head_length (concat insts) in
      if all_length v insts && all_length t (concat insts)
      then Ok (Numpy3D (NdArray [length insts; v; t] (concat (concat insts))))
      else Raise ShapeError
  | pd_multiindex =>
      if forallb (fun inst => all_length (head_length inst) inst) insts
      then Ok (PdMultiindex (long_rows 0 insts))
      else Raise ShapeError
  end.

(** ... and back, from a representation to instances. *)
Definition decode (p : panel) : result (list (list (list T))) :=
  match p with
  | NestedUniv cells => Ok cells
  | Numpy3D a =>
      match nd_shape a with
      | [n; v; t] =>
          if length (nd_data a) =? n * v * t
          then Ok (map (chunks v t) (chunks n (v * t) (nd_data a)))
          else Raise ShapeError
      | _ => Raise ShapeError
      end
  | PdMultiindex table =>
      let n := list_max (map (fun r => S r.1.1) table) in
      Ok (map (fun i =>
                 let mine := List.filter (fun r => r.1.1 =? i) table in
                 transpose (head_length (map snd mine)) (map snd mine))
              (seq 0 n))
  end.

Definition convert (p : panel) (from_type to_type : mtype) : result panel :=
  if mtype_eqb (mtype_of p) from_type
  then insts ← decode p; encode to_type insts
  else Raise (TypeError "obj is not of the declared from_type").

(** Modelled from the spec: the Type/format validator of section 6,
    [check_is_mtype(obj, mtype, return_metadata=True)]: validity, and for a
    valid panel its instance count and equal-length flag. *)
Definition check_is_mtype (p : panel) (m : mtype) : bool * option metadata :=
  if mtype_eqb (mtype_of p) m then
    match decode p with
    | Ok insts =>
        if all_length (head_length insts) insts
        then (true,
              Some (Metadata (length insts)
                      (all_length (head_length (concat insts)) (concat insts))))
        else (false, None)
    | Raise _ => (false, None)
    end
  else (false, None).

(** [n] instances of [v] variables of [t] observations each. *)
Definition rectangular (n v t : nat) (insts : list (list (list T))) : bool :=
  (length insts =? n) &&
  forallb (fun inst => (length inst =? v) && all_length t inst) insts.

End Panels.

Arguments panel T : clear implicits.

Section Broadcaster.
Context {T : Type}.

(** Modelled from the spec: the estimator capability contract of section
    6, a fit and a predict that understand one series. *)
Record estimator : Type := Estimator {
  model : Type;
  fit : list T -> result model;
  predict : model -> list Z -> result (list T)
}.

(** Fitting a series and forecasting the horizon [fh]. *)
Definition fit_predict (est : estimator) (fh : list Z) (y : list T)
    : result (list T) :=
  m ← fit est y; predict est m fh.

(** The operation on every variable of one instance; a failure is
    reported with the instance it occurred in. *)
Fixpoint apply_series (op : list T -> result (list T)) (vars : list (list T))
    : result (list (list T)) :=
  match vars with
  | [] => Ok []
  | y :: vars' =>
      r ← op y;
      rs ← apply_series op vars';
      Ok (r :: rs)
  end.

Definition apply_instance (op : list T -> result (list T)) (i : nat)
    (inst : list (list T)) : result (list (list T)) :=
  match apply_series op inst with
  | Ok r => Ok r
  | Raise e => Raise (BroadcastFailure i e)
  end.

Fixpoint apply_instances (op : list T -> result (list T)) (i : nat)
    (insts : list (list (list T))) : result (list (list (list T))) :=
  match insts with
  | [] => Ok []
  | inst :: rest =>
      r ← apply_instance op i inst;
      rs ← apply_instances op (S i) rest;
      Ok (r :: rs)
  end.

(** Modelled from the spec: [broadcast_apply] of section 4.4.  The panel
    is split into its instances, the operation is run on every series
    with the extra arguments unchanged, the first failure fails the
    whole call, and the results are put back in the representation of
    the input. *)
Definition broadcast_apply {E} (op : E -> list T -> result (list T))
    (p : panel T) (extra : E) : result (panel T) :=
  insts ← decode p;
  results ← apply_instances (op extra) 0 insts;
  encode (mtype_of p) results.

(** [est.fit(y).predict(fh)] on a panel [y]. *)
Definition fit_then_predict (est : estimator) (y : panel T) (fh : list Z)
    : result (panel T) :=
  broadcast_apply (fit_predict est) y fh.

End Broadcaster.

Arguments estimator T : clear implicits.

(** A forecaster that repeats the last observation; it cannot be fitted
    on an empty series. *)
Definition last_value_forecaster : estimator float := {|
  model := float;
  fit := fun y =>
    match last y with
    | Some v => Ok v
    | None => Raise (ValueError "cannot fit an empty series")
    end;
  predict := fun v fh => Ok (map (fun _ => v) fh)
|}.

End Broadcast.

(** ** Descriptions used in the statements *)

Section Descriptions.
Context {T : Type} `{Scalar T}.

(** Combine the elements two by two, dropping a last unpaired one. *)
Fixpoint pairwise (op : T -> T -> T) (arr : list T) : list T :=
  match arr with
  | a :: b :: rest => fdiv (op a b) sqrt2 :: pairwise op rest
  | _ => []
  end.

(** One level of the engine as a total function: [pairwise], except that
    a one-element input is returned as it is. *)
Definition one_level (op : T -> T -> T) (arr : list T) : list T :=
  match arr with
  | [v] => [v]
  | _ => pairwise op arr
  end.

(** The approximation after [k] levels, and the detail of level [k]
    (computed from the approximation of level [k - 1]). *)
Fixpoint approx_level (k : nat) (x : list T) : list T :=
  match k with
  | O => x
  | S k' => approx_level k' (one_level fadd x)
  end.

Definition detail_level (k : nat) (x : list T) : list T :=
  one_level fsub (approx_level (k - 1) x).

(** The order in which the code stores the coefficients: the level-[L]
    approximation, then the details from level [L] down to level 1. *)
Definition stored_order (L : nat) (x : list T) : list T :=
  approx_level L x ++ concat (map (fun k => detail_level k x) (rev (seq 1 L))).

(** The order the specification describes: the details of levels
    [1..L], most detailed first, then the level-[L] approximation. *)
Definition spec_order (L : nat) (x : list T) : list T :=
  concat (map (fun k => detail_level k x) (seq 1 L)) ++ approx_level L x.

(** The same result by recursion on the number of levels. *)
Fixpoint haar (L : nat) (x : list T) : list T :=
  match L with
  | O => x
  | S L' => haar L' (one_level fadd x) ++ one_level fsub x
  end.

(** The length of one level's output, and of the whole coefficient
    vector, as functions of the length of the series. *)
Definition level_len (n : nat) : nat :=
  if n =? 1 then 1 else n / 2.

Fixpoint coeff_len (L : nat) (n : nat) : nat :=
  match L with
  | O => n
  | S L' => coeff_len L' (level_len n) + level_len n
  end.

End Descriptions.

(** The energy of a sequence of reals: the sum of the squares of its
    elements. *)
Definition sum_sq (l : list R) : R :=
  foldr (fun v acc => (v * v + acc)%R) 0%R l.

(** * Properties *)

(** ** The coefficient engine *)

Section EngineFacts.
Context {T : Type} `{Scalar T}.

Lemma list_pair_ind (P : list T -> Prop) :
  P [] -> (forall a, P [a]) -> (forall a b l, P l -> P (a :: b :: l)) ->
  forall l, P l.
Proof.
  intros H0 H1 H2.
  assert (forall l, P l /\ forall a, P (a :: l)) as Hboth.
  { induction l as [|b l [IH1 IH2]]; split; auto. }
  intros l. apply Hboth.
Qed.

Lemma pairwise_length op arr : length (pairwise op arr) = length arr / 2.
Proof.
  induction arr as [| a | a b l IH] using list_pair_ind; try reflexivity.
  cbn [pairwise length]. rewrite IH.
  change (S (S (length l))) with (1 * 2 + length l).
  rewrite Nat.div_add_l by lia. lia.
Qed.

Lemma pairwise_lookup op arr i a b :
  arr !! (2 * i) = Some a -> arr !! (2 * i + 1) = Some b ->
  pairwise op arr !! i = Some (fdiv (op a b) sqrt2).
Proof.
  revert i. induction arr as [| a0 | a0 b0 l IH] using list_pair_ind;
    intros i Ha Hb.
  - discriminate.
  - destruct i; [discriminate|].
    replace (2 * S i) with (S (S (2 * i))) in Ha by lia. discriminate.
  - destruct i as [|i].
    + cbn in Ha, Hb. by simplify_eq.
    + replace (2 * S i) with (S (S (2 * i))) in Ha by lia.
      replace (2 * S i + 1) with (S (S (2 * i + 1))) in Hb by lia.
      cbn in Ha, Hb. cbn [pairwise]. cbn. by apply IH.
Qed.

Lemma pairwise_snoc_even op arr z :
  Nat.Even (length arr) -> pairwise op (arr ++ [z]) = pairwise op arr.
Proof.
  induction arr as [| a | a b l IH] using list_pair_ind; intros Hev.
  - reflexivity.
  - destruct Hev as [k Hk]. cbn in Hk. lia.
  - cbn [app pairwise]. f_equal. apply IH.
    destruct Hev as [k Hk]. cbn in Hk. exists (k - 1). lia.
Qed.

Lemma level_loop_pairwise_gen op pre arr s new :
  length pre = 2 * s ->
  level_loop op (pre ++ arr) (seq s (length arr / 2)) new
    = Ok (new ++ pairwise op arr).
Proof.
  revert pre s new.
  induction arr as [| a | a b l IH] using list_pair_ind; intros pre s new Hpre.
  - cbn. by rewrite app_nil_r.
  - cbn. by rewrite app_nil_r.
  - cbn [length]. change (S (S (length l))) with (1 * 2 + length l).
    rewrite Nat.div_add_l by lia. cbn [Nat.add seq level_loop].
    assert ((pre ++ a :: b :: l) !! (2 * s) = Some a) as Ea.
    { rewrite lookup_app_r by lia. by replace (2 * s - length pre) with 0 by lia. }
    assert ((pre ++ a :: b :: l) !! (2 * s + 1) = Some b) as Eb.
    { rewrite lookup_app_r by lia. by replace (2 * s + 1 - length pre) with 1 by lia. }
    unfold getitem. rewrite Ea, Eb. cbn [mbind result_bind].
    replace (pre ++ a :: b :: l) with ((pre ++ [a; b]) ++ l)
      by (by rewrite <- app_assoc).
    rewrite (IH (pre ++ [a; b]) (S s)).
    + cbn [pairwise]. by rewrite <- app_assoc.
    + rewrite length_app. cbn. lia.
Qed.

Lemma level_loop_pairwise op arr :
  level_loop op arr (half_range arr) [] = Ok (pairwise op arr).
Proof. apply (level_loop_pairwise_gen op [] arr 0 []). reflexivity. Qed.

(** The two engine functions never raise and compute [one_level]. *)
Lemma get_approx_eq arr :
  _get_approx_coefficients arr = Ok (one_level fadd arr).
Proof.
  unfold _get_approx_coefficients.
  destruct arr as [|a [|b l]]; try reflexivity.
  change (length (a :: b :: l) =? 1) with false. cbv iota.
  apply level_loop_pairwise.
Qed.

Lemma get_wavelet_eq arr :
  _get_wavelet_coefficients arr = Ok (one_level fsub arr).
Proof.
  unfold _get_wavelet_coefficients.
  destruct arr as [|a [|b l]]; try reflexivity.
  change (length (a :: b :: l) =? 1) with false. cbv iota.
  apply level_loop_pairwise.
Qed.

Lemma one_level_ge2 op arr : 2 <= length arr -> one_level op arr = pairwise op arr.
Proof. destruct arr as [|a [|b l]]; cbn; intros; try lia; reflexivity. Qed.

(** C2.  One decomposition level.  For an input of length at least two,
    both engine functions return (they do not raise) a sequence of length
    [floor(n/2)] whose [i]-th entry is [(arr[2i] + arr[2i+1]) / sqrt(2)],
    respectively [(arr[2i] - arr[2i+1]) / sqrt(2)]; appending one more
    element to an input of even length changes neither output, so the
    unpaired last element of an odd-length input is dropped without an
    error; and on a one-element input both return that element. *)
Theorem one_level_contract :
  (forall arr : list T, 2 <= length arr ->
     exists approx detail,
       _get_approx_coefficients arr = Ok approx /\
       _get_wavelet_coefficients arr = Ok detail /\
       length approx = length arr / 2 /\
       length detail = length arr / 2 /\
       forall i, i < length arr / 2 ->
         exists a b,
           arr !! (2 * i) = Some a /\ arr !! (2 * i + 1) = Some b /\
           approx !! i = Some (fdiv (fadd a b) sqrt2) /\
           detail !! i = Some (fdiv (fsub a b) sqrt2)) /\
  (forall (arr : list T) (z : T), 2 <= length arr -> Nat.Even (length arr) ->
     _get_approx_coefficients (arr ++ [z]) = _get_approx_coefficients arr /\
     _get_wavelet_coefficients (arr ++ [z]) = _get_wavelet_coefficients arr) /\
  (forall v : T,
     _get_approx_coefficients [v] = Ok [v] /\
     _get_wavelet_coefficients [v] = Ok [v]).
Proof.
  split; [|split].
  - intros arr Hlen.
    exists (pairwise fadd arr), (pairwise fsub arr).
    rewrite get_approx_eq, get_wavelet_eq, !one_level_ge2 by done.
    rewrite !pairwise_length. repeat split.
    intros i Hi.
    assert (2 * i + 1 < length arr) as Hb.
    { pose proof (Nat.Div0.mul_div_le (length arr) 2). lia. }
    destruct (lookup_lt_is_Some_2 arr (2 * i)) as [a Ha]; [lia|].
    destruct (lookup_lt_is_Some_2 arr (2 * i + 1)) as [b Hb']; [lia|].
    exists a, b. repeat split; try done; by apply pairwise_lookup.
  - intros arr z Hlen Hev.
    rewrite !get_approx_eq, !get_wavelet_eq.
    rewrite !one_level_ge2 by (rewrite ?length_app; cbn; lia).
    by rewrite !pairwise_snoc_even.
  - intros v. split; reflexivity.
Qed.

End EngineFacts.

(** ** The per-instance algorithm *)

Section TransformerFacts.
Context {T : Type} `{Scalar T}.

Lemma approx_level_S k (x : list T) :
  approx_level (S k) x = one_level fadd (approx_level k x).
Proof. revert x. induction k as [|k IH]; intros x; [done|]. cbn. apply IH. Qed.

Lemma detail_level_shift k (x : list T) :
  1 <= k -> detail_level k (one_level fadd x) = detail_level (S k) x.
Proof.
  intros Hk. unfold detail_level. destruct k as [|k]; [lia|].
  cbn [Nat.sub]. by rewrite Nat.sub_0_r.
Qed.

Lemma rev_concat_map_rev {A B} (f : A -> list B) (l : list A) :
  rev (concat (map (fun k => rev (f k)) l)) = concat (map f (rev l)).
Proof.
  induction l as [|a l IH]; [done|].
  cbn. rewrite rev_app_distr, rev_involutive, IH.
  rewrite map_app, concat_app. cbn. by rewrite app_nil_r.
Qed.

(** The loop: after [n] passes [approx] is the level-[n] approximation and
    [coeffs] has received the reversed details of levels [1..n], in that
    order. *)
Lemma levels_loop_spec n (current : list T) approx coeffs :
  levels_loop n current approx coeffs =
    Ok (match n with O => approx | S _ => Some (approx_level n current) end,
        coeffs ++ concat (map (fun k => rev (detail_level k current)) (seq 1 n))).
Proof.
  revert current approx coeffs.
  induction n as [|n IH]; intros current approx coeffs.
  - cbn. by rewrite app_nil_r.
  - cbn [levels_loop]. rewrite get_approx_eq, get_wavelet_eq.
    cbn [mbind result_bind]. rewrite IH. f_equal. f_equal.
    + by destruct n.
    + rewrite <- app_assoc. f_equal. cbn [seq map concat]. f_equal.
      rewrite <- (seq_shift n 1), map_map. f_equal.
      apply map_ext_in. intros k Hk. apply in_seq in Hk.
      by rewrite detail_level_shift by lia.
Qed.

Lemma extract_instance_stored (L : nat) (x : list T) :
  1 <= L -> extract_instance (Z.of_nat L) x = Ok (stored_order L x).
Proof.
  intros HL. unfold extract_instance. cbn [py_eq_zero py_range as_int].
  destruct (Z.eqb_spec (Z.of_nat L) 0) as [E|_]; [lia|].
  cbn [mbind result_bind]. rewrite Nat2Z.id, levels_loop_spec.
  cbn [mbind result_bind].
  destruct L as [|L]; [lia|]. f_equal. unfold stored_order.
  rewrite app_nil_l, rev_app_distr, rev_involutive. f_equal.
  apply rev_concat_map_rev.
Qed.

Lemma stored_order_haar (L : nat) (x : list T) : stored_order L x = haar L x.
Proof.
  revert x. induction L as [|L IH]; intros x.
  - unfold stored_order. cbn. by rewrite app_nil_r.
  - cbn [haar]. rewrite <- IH. unfold stored_order.
    rewrite <- app_assoc. f_equal.
    cbn [seq]. rewrite <- (seq_shift L 1). cbn [rev].
    rewrite map_app, concat_app. cbn [map concat]. rewrite app_nil_r.
    f_equal. rewrite <- map_rev, map_map. f_equal.
    apply map_ext_in. intros k Hk. apply in_rev, in_seq in Hk.
    by rewrite detail_level_shift by lia.
Qed.

Lemma extract_instance_haar (L : nat) (x : list T) :
  extract_instance (Z.of_nat L) x = Ok (haar L x).
Proof.
  destruct L as [|L]; [done|].
  rewrite extract_instance_stored by lia. by rewrite stored_order_haar.
Qed.

Lemma extract_instance_negative (z : Z) (x : list T) :
  (z < 0)%Z -> extract_instance z x = Raise AttributeError.
Proof.
  intros Hz. unfold extract_instance. cbn [py_eq_zero py_range as_int].
  destruct (Z.eqb_spec z 0) as [E|_]; [lia|].
  cbn [mbind result_bind]. by rewrite Z2Nat.nonpos by lia.
Qed.

Lemma one_level_length op (x : list T) :
  2 <= length x -> length (one_level op x) = length x / 2.
Proof. intros Hx. rewrite one_level_ge2 by done. apply pairwise_length. Qed.

Lemma half_of_double_pow m L : m * 2 ^ S L / 2 = m * 2 ^ L.
Proof.
  rewrite Nat.pow_succ_r'.
  replace (m * (2 * 2 ^ L)) with (m * 2 ^ L * 2) by lia.
  apply Nat.div_mul. lia.
Qed.

Lemma pow2_pos L : 1 <= 2 ^ L.
Proof. pose proof (Nat.pow_nonzero 2 L). lia. Qed.

Lemma haar_length (L : nat) (x : list T) (m : nat) :
  1 <= m -> length x = m * 2 ^ L -> length (haar L x) = length x.
Proof.
  intros Hm. revert x. induction L as [|L IH]; intros x Hx; [done|].
  assert (2 <= length x) as H2.
  { rewrite Hx, Nat.pow_succ_r'. pose proof (pow2_pos L). nia. }
  assert (length (one_level fadd x) = m * 2 ^ L) as Ea
    by (by rewrite one_level_length, Hx, half_of_double_pow).
  assert (length (one_level fsub x) = m * 2 ^ L) as Ed
    by (by rewrite one_level_length, Hx, half_of_double_pow).
  cbn [haar]. rewrite length_app, IH by done.
  rewrite Ea, Ed, Hx, Nat.pow_succ_r'. lia.
Qed.

Lemma approx_level_length (L k : nat) (x : list T) (m : nat) :
  1 <= m -> length x = m * 2 ^ L -> k <= L ->
  length (approx_level k x) = m * 2 ^ (L - k).
Proof.
  intros Hm Hx. induction k as [|k IH]; intros Hk.
  - by rewrite Nat.sub_0_r.
  - rewrite approx_level_S.
    assert (length (approx_level k x) = m * 2 ^ S (L - S k)) as E.
    { rewrite IH by lia. f_equal. f_equal. lia. }
    rewrite one_level_length.
    + by rewrite E, half_of_double_pow.
    + rewrite E, Nat.pow_succ_r'. pose proof (pow2_pos (L - S k)). nia.
Qed.

Lemma div_pow2 m L k : k <= L -> m * 2 ^ L / 2 ^ k = m * 2 ^ (L - k).
Proof.
  intros Hk. replace L with ((L - k) + k) at 1 by lia.
  rewrite Nat.pow_add_r, Nat.mul_assoc.
  apply Nat.div_mul. apply Nat.pow_nonzero. lia.
Qed.

Lemma haar_singleton (L : nat) (v : T) : haar L [v] = replicate (S L) v.
Proof.
  induction L as [|L IH]; [done|].
  cbn [haar one_level]. rewrite IH.
  generalize (S L) as n. induction n as [|n IHn]; [done|].
  cbn. by rewrite IHn.
Qed.

(** The descriptions [approx_level] and [detail_level] are what the
    engine functions return, level after level. *)
Lemma levels_from_engine (k : nat) (x : list T) :
  _get_approx_coefficients (approx_level k x) = Ok (approx_level (S k) x) /\
  _get_wavelet_coefficients (approx_level k x) = Ok (detail_level (S k) x).
Proof.
  rewrite get_approx_eq, get_wavelet_eq, approx_level_S.
  unfold detail_level. cbn [Nat.sub]. by rewrite Nat.sub_0_r.
Qed.

(** C1 (as amended).  With [L >= 1] levels the per-instance algorithm
    returns, for every series, the level-[L] approximation first, then the
    detail coefficients from level [L] down to level 1: the coarsest
    coefficients open the vector and the first iteration's (finest) detail
    coefficients close it, each block in its own natural order.  Here
    the approximation and the detail of level [k + 1] are what
    [_get_approx_coefficients] and [_get_wavelet_coefficients] return on
    the approximation of level [k], the series itself being level 0. *)
Theorem stored_coefficient_order (L : nat) (x : list T) :
  1 <= L ->
  exists out,
    extract_instance (Z.of_nat L) x = Ok out /\
    out = approx_level L x ++
          concat (map (fun k => detail_level k x) (rev (seq 1 L))) /\
    take (length (approx_level L x)) out = approx_level L x /\
    drop (length out - length (detail_level 1 x)) out = detail_level 1 x /\
    approx_level 0 x = x /\
    forall k,
      _get_approx_coefficients (approx_level k x) = Ok (approx_level (S k) x) /\
      _get_wavelet_coefficients (approx_level k x) = Ok (detail_level (S k) x).
Proof.
  intros HL. exists (stored_order L x).
  split; [by apply extract_instance_stored|]. split; [done|].
  split; [|split; [|split; [done|intros k; apply levels_from_engine]]].
  - unfold stored_order. by rewrite take_app_length.
  - rewrite stored_order_haar. destruct L as [|L]; [lia|].
    cbn [haar]. change (detail_level 1 x) with (one_level fsub x).
    rewrite length_app, Nat.add_sub. by rewrite drop_app_length.
Qed.

(** C9.  When the series length is [m * 2^L] with [m >= 1], running
    [L >= 1] levels returns a vector of exactly the length of the series:
    the detail of level [k] has length [n / 2^k], the final approximation
    has length [n / 2^L], and together, stored as C1 describes, they are
    [n] coefficients. *)
Theorem length_preserved_when_divisible (x : list T) (m L : nat) :
  1 <= m -> 1 <= L -> length x = m * 2 ^ L ->
  exists out,
    extract_instance (Z.of_nat L) x = Ok out /\
    length out = length x /\
    (forall k, 1 <= k <= L -> length (detail_level k x) = length x / 2 ^ k) /\
    length (approx_level L x) = length x / 2 ^ L /\
    out = approx_level L x ++
          concat (map (fun k => detail_level k x) (rev (seq 1 L))).
Proof.
  intros Hm HL Hx. exists (haar L x). split; [apply extract_instance_haar|].
  split; [by apply (haar_length L x m)|].
  split; [|split; [|by rewrite <- stored_order_haar]].
  - intros k Hk. unfold detail_level.
    pose proof (approx_level_length L (k - 1) x m Hm Hx ltac:(lia)) as E.
    rewrite one_level_length.
    + rewrite E, Hx, div_pow2 by lia.
      replace (L - (k - 1)) with (S (L - k)) by lia.
      apply half_of_double_pow.
    + rewrite E. replace (L - (k - 1)) with (S (L - k)) by lia.
      rewrite Nat.pow_succ_r'. pose proof (pow2_pos (L - k)). nia.
  - rewrite (approx_level_length L L x m) by done.
    by rewrite Hx, div_pow2.
Qed.

(** C10.  On a one-element series [v], [L >= 1] levels return [L + 1]
    coefficients, all equal to [v]: each level emits [v] both as detail
    and as approximation, so the output grows with [L]. *)
Theorem singleton_series_grows (v : T) (L : nat) :
  1 <= L ->
  exists out,
    extract_instance (Z.of_nat L) [v] = Ok out /\
    length out = L + 1 /\
    Forall (fun e => e = v) out.
Proof.
  intros HL. exists (replicate (S L) v).
  split; [by rewrite extract_instance_haar, haar_singleton|].
  split; [rewrite length_replicate; lia|].
  apply Forall_forall. intros e He. by apply elem_of_replicate in He as [-> _].
Qed.

End TransformerFacts.

(** ** The transform of a panel *)

Section TransformFacts.
Context {T : Type} `{Scalar T}.

Lemma extract_loop_spec (L : nat) (data res : list (list T)) :
  extract_loop (Z.of_nat L) data res = Ok (res ++ map (haar L) data).
Proof.
  revert res. induction data as [|x data IH]; intros res.
  - cbn. by rewrite app_nil_r.
  - cbn [extract_loop]. rewrite extract_instance_haar.
    cbn [mbind result_bind]. rewrite IH. cbn [map].
    by rewrite <- app_assoc.
Qed.

Lemma extract_wavelet_spec (L : nat) (data : list (list T)) :
  _extract_wavelet_coefficients (Z.of_nat L) data = Ok (map (haar L) data).
Proof. apply extract_loop_spec. Qed.

Lemma one_level_len op (x : list T) :
  length (one_level op x) = level_len (length x).
Proof.
  destruct x as [|a [|b l]]; try reflexivity.
  rewrite one_level_ge2 by (cbn; lia). apply pairwise_length.
Qed.

Lemma haar_coeff_len (L : nat) (x : list T) :
  length (haar L x) = coeff_len L (length x).
Proof.
  revert x. induction L as [|L IH]; intros x; [done|].
  cbn [haar coeff_len]. by rewrite length_app, IH, !one_level_len.
Qed.

Lemma rows_concat_gen (w : nat) (d : list T) (s n : nat) :
  concat (map (fun i => take w (drop (i * w) d)) (seq s n))
    = take (n * w) (drop (s * w) d).
Proof.
  revert s. induction n as [|n IH]; intros s; [done|].
  cbn [seq map concat]. rewrite IH.
  replace (S s * w) with (s * w + w) by lia.
  rewrite <- drop_drop, take_take_drop. f_equal; lia.
Qed.

Lemma rows_concat (n w : nat) (d : list T) :
  length d = n * w -> concat (rows (NdArray [n; w] d)) = d.
Proof.
  intros Hd. unfold rows. cbn [nd_shape nd_data].
  rewrite rows_concat_gen. cbn [Nat.mul drop]. apply take_ge. lia.
Qed.

Lemma rows_length (n w : nat) (d : list T) :
  length (rows (NdArray [n; w] d)) = n.
Proof. unfold rows. cbn. by rewrite length_map, length_seq. Qed.

Lemma rows_uniform (n w : nat) (d : list T) :
  length d = n * w -> Forall (fun r => length r = w) (rows (NdArray [n; w] d)).
Proof.
  intros Hd. unfold rows. cbn [nd_shape nd_data].
  apply Forall_forall. intros r Hr.
  apply list_elem_of_In, in_map_iff in Hr as (i & <- & Hi).
  apply in_seq in Hi. rewrite length_take, length_drop. nia.
Qed.

Lemma uniform_concat_length (c : nat) (res : list (list T)) :
  Forall (fun r => length r = c) res -> length (concat res) = length res * c.
Proof.
  induction 1 as [|r res Hr _ IH]; [done|].
  cbn. rewrite length_app, IH, Hr. lia.
Qed.

Lemma np_asarray_uniform (c : nat) (res : list (list T)) :
  res <> [] -> Forall (fun r => length r = c) res ->
  np_asarray res = Ok (NdArray [length res; c] (concat res)).
Proof.
  intros Hne Hall. destruct res as [|r res]; [done|].
  unfold np_asarray.
  assert (length r = c) as Hr by (by inversion Hall).
  rewrite Hr.
  assert (forallb (fun r' => length r' =? c) (r :: res) = true) as ->; [|done].
  apply forallb_forall. intros r' Hr'.
  apply Nat.eqb_eq. rewrite Forall_forall in Hall.
  apply Hall. by apply list_elem_of_In.
Qed.

(** The transform of a dense panel with at least one instance: the
    result has shape (instances, coefficient length, 1) and holds the
    coefficient vectors of the instances one after the other. *)
Lemma transform_ok (L n v t : nat) (X : ndarray T) :
  nd_shape X = [n; v; t] -> length (nd_data X) = n * v * t -> 1 <= n ->
  _transform (Z.of_nat L) X =
    Ok (NdArray [n; coeff_len L (v * t); 1]
          (concat (map (haar L) (rows (NdArray [n; v * t] (nd_data X)))))).
Proof.
  intros Hs Hd Hn. unfold _transform.
  assert (_check_parameters (Z.of_nat L) = Ok tt) as ->.
  { unfold _check_parameters. cbn [as_int].
    destruct (Z.leb_spec (Z.of_nat L) (-1)); [lia|done]. }
  cbn [mbind result_bind]. unfold convert_numpy3D_to_numpyflat.
  rewrite Hs, Hd, Nat.eqb_refl. cbn [mbind result_bind].
  rewrite extract_wavelet_spec. cbn [mbind result_bind].
  set (rs := rows (NdArray [n; v * t] (nd_data X))).
  assert (length rs = n) as Hlen by apply rows_length.
  assert (Forall (fun r => length r = coeff_len L (v * t)) (map (haar L) rs)) as Hu.
  { apply Forall_map. eapply Forall_impl; [apply rows_uniform; lia|].
    intros r Hr. cbn. by rewrite haar_coeff_len, Hr. }
  rewrite (np_asarray_uniform (coeff_len L (v * t))); [| |done].
  2:{ destruct rs; [cbn in Hlen; lia|done]. }
  cbn [mbind result_bind shape_at nd_shape lookup list_lookup].
  rewrite length_map, Hlen. unfold np_reshape. cbn [nd_data foldr].
  rewrite (uniform_concat_length _ _ Hu), length_map, Hlen.
  replace (n * coeff_len L (v * t) =? n * (coeff_len L (v * t) * (1 * 1)))
    with true by (symmetry; apply Nat.eqb_eq; lia).
  done.
Qed.

(** On a panel without instances [np.asarray] returns a one-dimensional
    array, and reading [shape[1]] raises. *)
Lemma transform_empty_panel (L v t : nat) :
  _transform (T:=T) (Z.of_nat L) (NdArray [0; v; t] []) = Raise IndexError.
Proof.
  unfold _transform.
  assert (_check_parameters (Z.of_nat L) = Ok tt) as ->.
  { unfold _check_parameters. cbn [as_int].
    destruct (Z.leb_spec (Z.of_nat L) (-1)); [lia|done]. }
  reflexivity.
Qed.

Lemma map_haar_0 (l : list (list T)) : map (haar 0) l = l.
Proof. induction l as [|x l IH]; [done|]. cbn [map]. by rewrite IH. Qed.

(** C4.  With [num_levels = 0] every instance's series is returned as it
    is: [_extract_wavelet_coefficients] returns its input rows, and the
    transform of a dense panel returns the values of the panel unchanged,
    instance by instance. *)
Theorem zero_levels_identity :
  (forall data : list (list T), _extract_wavelet_coefficients 0 data = Ok data) /\
  (forall (X : ndarray T) (n v t : nat),
     nd_shape X = [n; v; t] -> length (nd_data X) = n * v * t -> 1 <= n ->
     exists Xt,
       _transform 0 X = Ok Xt /\
       nd_data Xt = nd_data X /\
       rows (NdArray [n; v * t] (nd_data Xt)) = rows (NdArray [n; v * t] (nd_data X))).
Proof.
  split.
  - intros data. by rewrite (extract_wavelet_spec 0), map_haar_0.
  - intros X n v t Hs Hd Hn. eexists. split; [by apply (transform_ok 0 n v t)|].
    cbn [nd_data]. rewrite map_haar_0, rows_concat by lia. done.
Qed.

(** C7.  The axes of the result.  A panel of one instance with one
    variable and two time points, transformed with one level, comes back
    with shape (1, 2, 1): the coefficient vector lies along the second
    axis and the third axis has length one. *)
Theorem transform_output_axes (a b : T) :
  _transform 1 (NdArray [1; 1; 2] [a; b]) =
    Ok (NdArray [1; 2; 1] [fdiv (fadd a b) sqrt2; fdiv (fsub a b) sqrt2]).
Proof. reflexivity. Qed.

End TransformFacts.

(** ** The store: what the transform writes to *)

Module StoreFacts.

Section Frame.
Import Store.
Context {T : Type} `{Scalar T}.
Implicit Types (hp : gmap loc (obj T)) (st : state T).

Lemma frames_ret {A} hp (a : A) (Q : A -> Prop) : Q a -> frames hp (ret a) Q.
Proof. intros HQ st Hst. cbn. split; [done|]. by intros ? [= <-]. Qed.

Lemma frames_raise {A} hp e (Q : A -> Prop) : frames hp (raise e) Q.
Proof. intros st Hst. cbn. split; [done|]. by intros ? [=]. Qed.

Lemma frames_lift {A} hp (r : result A) : frames hp (lift r) (fun _ => True).
Proof. intros st Hst. cbn. by split. Qed.

Lemma frames_log hp s : frames hp (log s) (fun _ => True).
Proof. intros st Hst. cbn. by split. Qed.

Lemma frames_bind {A B} hp (m : M T A) (f : A -> M T B) Q1 Q :
  frames hp m Q1 -> (forall a, Q1 a -> frames hp (f a) Q) ->
  frames hp (bind m f) Q.
Proof.
  intros Hm Hf st Hst. unfold bind.
  destruct (Hm st Hst) as [Hkeep HQ1].
  destruct (m st) as [[a|e] st']; cbn in *.
  - apply Hf; [by apply HQ1|done].
  - split; [done|]. by intros ? [=].
Qed.

Lemma frames_weaken {A} hp (m : M T A) (Q Q' : A -> Prop) :
  frames hp m Q -> (forall a, Q a -> Q' a) -> frames hp m Q'.
Proof.
  intros Hm HQ st Hst. destruct (Hm st Hst) as [Hkeep Hq].
  split; [done|]. intros a Ha. by apply HQ, Hq.
Qed.

Lemma frames_alloc hp o : frames hp (alloc o) (fun l => hp !! l = None).
Proof.
  intros st Hst. cbn.
  assert (hp !! fresh (dom (heap st)) = None) as Hfresh.
  { destruct (hp !! fresh (dom (heap st))) as [o'|] eqn:E; [|done].
    exfalso. apply (is_fresh (dom (heap st))).
    apply elem_of_dom. exists o'. by eapply lookup_weaken. }
  split.
  - by apply insert_subseteq_r.
  - by intros ? [= <-].
Qed.

Lemma frames_read_list hp l : frames hp (read_list l) (fun _ => True).
Proof.
  intros st Hst. unfold read_list.
  destruct (heap st !! l) as [[?|?]|]; cbn; by split.
Qed.

Lemma frames_read_buffer hp b : frames hp (read_buffer b) (fun _ => True).
Proof.
  intros st Hst. unfold read_buffer.
  destruct (heap st !! b) as [[?|?]|]; cbn; by split.
Qed.

Lemma frames_write_list hp l items :
  hp !! l = None -> frames hp (write_list l items) (fun _ => True).
Proof. intros Hl st Hst. cbn. split; [by apply insert_subseteq_r|done]. Qed.

(** One step of a sequential composition: the rule for the first
    computation, then the continuation. *)
Tactic Notation "frame_with" uconstr(rule) :=
  eapply frames_bind; [apply rule; try eassumption | intros ? ?].
Tactic Notation "frame_with" uconstr(rule) "as" ident(x) :=
  eapply frames_bind; [apply rule; try eassumption | intros x ?].

Lemma frames_list_append hp l v :
  hp !! l = None -> frames hp (list_append l v) (fun _ => True).
Proof.
  intros Hl. unfold list_append. frame_with frames_read_list.
  by apply frames_write_list.
Qed.

Lemma frames_list_reverse hp l :
  hp !! l = None -> frames hp (list_reverse l) (fun _ => True).
Proof.
  intros Hl. unfold list_reverse. frame_with frames_read_list.
  by apply frames_write_list.
Qed.

Lemma frames_list_extend hp l src :
  hp !! l = None -> frames hp (list_extend l src) (fun _ => True).
Proof.
  intros Hl. unfold list_extend. do 2 frame_with frames_read_list.
  by apply frames_write_list.
Qed.

Lemma frames_seq_items hp s : frames hp (seq_items s) (fun _ => True).
Proof.
  destruct s as [l|b off len]; cbn [seq_items].
  - apply frames_read_list.
  - frame_with frames_read_buffer. by apply frames_ret.
Qed.

Lemma frames_seq_len hp s : frames hp (seq_len s) (fun _ => True).
Proof. unfold seq_len. frame_with frames_seq_items. by apply frames_ret. Qed.

Lemma frames_seq_getitem hp s i : frames hp (seq_getitem s i) (fun _ => True).
Proof.
  unfold seq_getitem. frame_with frames_seq_items.
  destruct (_ !! i); [by apply frames_ret | apply frames_raise].
Qed.

Lemma frames_level_loop hp op arr xs new :
  hp !! new = None -> frames hp (level_loop op arr xs new) (fun _ => True).
Proof.
  intros Hnew. induction xs as [|x xs IH]; cbn [level_loop].
  - by apply frames_ret.
  - do 2 frame_with frames_seq_getitem.
    frame_with frames_list_append. apply IH.
Qed.

Lemma frames_get_approx hp arr :
  frames hp (_get_approx_coefficients arr) (fun l => hp !! l = None).
Proof.
  unfold _get_approx_coefficients.
  frame_with frames_alloc. frame_with frames_seq_len.
  destruct (_ =? 1).
  - frame_with frames_seq_getitem. apply frames_alloc.
  - frame_with frames_level_loop. by apply frames_ret.
Qed.

Lemma frames_get_wavelet hp arr :
  frames hp (_get_wavelet_coefficients arr) (fun l => hp !! l = None).
Proof.
  unfold _get_wavelet_coefficients.
  frame_with frames_alloc. frame_with frames_seq_len.
  destruct (_ =? 1).
  - frame_with frames_seq_getitem. apply frames_alloc.
  - frame_with frames_level_loop. by apply frames_ret.
Qed.

Lemma frames_levels_loop hp n current approx coeffs :
  hp !! coeffs = None ->
  (forall a, approx = Some a -> hp !! a = None) ->
  frames hp (levels_loop n current approx coeffs)
    (fun r => forall a, r = Some a -> hp !! a = None).
Proof.
  intros Hc. revert current approx.
  induction n as [|n IH]; intros current approx Ha; cbn [levels_loop].
  - by apply frames_ret.
  - frame_with frames_get_approx. frame_with frames_get_wavelet.
    frame_with frames_list_reverse. frame_with frames_list_extend.
    apply IH. by intros ? [= <-].
Qed.

(** What [extract_instance] hands back is either the row it was given
    or a list that did not exist before. *)
Lemma frames_extract_instance hp num_levels x :
  frames hp (extract_instance num_levels x)
    (fun s => s = x \/ exists l, s = SList l /\ hp !! l = None).
Proof.
  unfold extract_instance. destruct (py_eq_zero num_levels).
  - apply frames_ret. by left.
  - frame_with frames_alloc as coeffs. frame_with frames_lift as n.
    eapply frames_bind; [by apply frames_levels_loop|].
    intros [approx|] Happrox; [|apply frames_raise].
    frame_with frames_list_reverse; [by apply Happrox|].
    frame_with frames_list_extend. frame_with frames_list_reverse.
    apply frames_ret. right. by eexists.
Qed.

Lemma frames_extract_loop hp num_levels data res :
  frames hp (extract_loop num_levels data res) (fun _ => True).
Proof.
  revert res. induction data as [|x data IH]; intros res; cbn [extract_loop].
  - by apply frames_ret.
  - frame_with frames_extract_instance. apply IH.
Qed.

Lemma frames_read_all hp res : frames hp (read_all res) (fun _ => True).
Proof.
  induction res as [|s res IH]; cbn [read_all].
  - by apply frames_ret.
  - frame_with frames_seq_items. frame_with IH. by apply frames_ret.
Qed.

Lemma frames_np_asarray hp res :
  frames hp (np_asarray res) (fun a => hp !! v_buf a = None).
Proof.
  unfold np_asarray. frame_with frames_read_all as contents.
  destruct contents as [|r contents].
  - frame_with frames_alloc. by apply frames_ret.
  - destruct (forallb _ _); [|apply frames_raise].
    frame_with frames_alloc. by apply frames_ret.
Qed.

Lemma frames_shape_at hp a i : frames hp (shape_at a i) (fun _ => True).
Proof.
  unfold shape_at. destruct (_ !! i); [by apply frames_ret | apply frames_raise].
Qed.

Lemma frames_np_reshape hp a shape :
  hp !! v_buf a = None ->
  frames hp (np_reshape a shape) (fun a' => hp !! v_buf a' = None).
Proof.
  intros Ha. unfold np_reshape.
  destruct (_ =? _); [by apply frames_ret | apply frames_raise].
Qed.

Lemma frames_convert hp X :
  frames hp (convert_numpy3D_to_numpyflat X) (fun _ => True).
Proof.
  unfold convert_numpy3D_to_numpyflat.
  destruct (v_shape X) as [|n [|v [|t [|? ?]]]]; try apply frames_raise.
  frame_with frames_read_buffer.
  destruct (_ <=? _); [by apply frames_ret | apply frames_raise].
Qed.

Lemma frames_transform hp num_levels X :
  frames hp (_transform num_levels X) (fun Xt => hp !! v_buf Xt = None).
Proof.
  unfold _transform.
  frame_with frames_lift. frame_with frames_log.
  frame_with frames_convert. frame_with frames_log.
  frame_with frames_extract_loop. frame_with frames_log.
  frame_with frames_np_asarray. frame_with frames_log.
  do 2 frame_with frames_shape_at.
  by apply frames_np_reshape.
Qed.

End Frame.

(** *** The store program computes what the functional one does *)

Section Simulation.
Context {T : Type} `{Scalar T}.
Implicit Types (st : Store.state T) (s : Store.seqref) (l : Store.loc).

#[local] Abbreviation heap := Store.heap.
#[local] Abbreviation steps := Store.steps.
#[local] Abbreviation State := Store.State.
#[local] Abbreviation PyList := Store.PyList.
#[local] Abbreviation NdBuffer := Store.NdBuffer.

Lemma state_eta st : State (heap st) (steps st) = st.
Proof. by destruct st. Qed.

Lemma bind_ok {A B} (m : Store.M T A) (f : A -> Store.M T B) st a st' :
  m st = (Ok a, st') -> Store.bind m f st = f a st'.
Proof. intros E. unfold Store.bind. by rewrite E. Qed.

Lemma bind_raise {A B} (m : Store.M T A) (f : A -> Store.M T B) st e st' :
  m st = (Raise e, st') -> Store.bind m f st = (Raise e, st').
Proof. intros E. unfold Store.bind. by rewrite E. Qed.

Lemma read_list_ok st l items :
  heap st !! l = Some (PyList items) -> Store.read_list l st = (Ok items, st).
Proof. intros E. unfold Store.read_list. by rewrite E. Qed.

Lemma read_buffer_ok st l data :
  heap st !! l = Some (NdBuffer data) -> Store.read_buffer l st = (Ok data, st).
Proof. intros E. unfold Store.read_buffer. by rewrite E. Qed.

Lemma seq_items_ok st s items :
  Store.seq_denotes st s items -> Store.seq_items s st = (Ok items, st).
Proof.
  destruct s as [l|b off len]; cbn [Store.seq_denotes Store.seq_items].
  - apply read_list_ok.
  - intros (data & Hb & _ & ->).
    by rewrite (bind_ok _ _ _ _ _ (read_buffer_ok _ _ _ Hb)).
Qed.

Lemma seq_len_ok st s items :
  Store.seq_denotes st s items -> Store.seq_len s st = (Ok (length items), st).
Proof.
  intros Hs. unfold Store.seq_len.
  by rewrite (bind_ok _ _ _ _ _ (seq_items_ok _ _ _ Hs)).
Qed.

Lemma seq_getitem_sim st s items i :
  Store.seq_denotes st s items ->
  Store.seq_getitem s i st = (getitem items i, st).
Proof.
  intros Hs. unfold Store.seq_getitem, getitem.
  rewrite (bind_ok _ _ _ _ _ (seq_items_ok _ _ _ Hs)).
  by destruct (items !! i).
Qed.

Lemma seq_denotes_mono st st' s items :
  heap st ⊆ heap st' -> Store.seq_denotes st s items ->
  Store.seq_denotes st' s items.
Proof.
  intros Hsub. destruct s as [l|b off len]; cbn [Store.seq_denotes].
  - intros E. by eapply lookup_weaken.
  - intros (data & Hb & Hlen & ->). exists data.
    split; [by eapply lookup_weaken|done].
Qed.

Lemma seq_denotes_insert st s items l o :
  Store.seq_loc s <> l -> Store.seq_denotes st s items ->
  Store.seq_denotes (State (<[l := o]> (heap st)) (steps st)) s items.
Proof.
  intros Hne. destruct s as [l'|b off len]; cbn in *.
  - by rewrite lookup_insert_ne.
  - intros (data & Hb & Hlen & ->). exists data.
    by rewrite lookup_insert_ne.
Qed.

Lemma list_append_ok st l items v :
  heap st !! l = Some (PyList items) ->
  Store.list_append l v st =
    (Ok tt, State (<[l := PyList (items ++ [v])]> (heap st)) (steps st)).
Proof.
  intros E. unfold Store.list_append.
  by rewrite (bind_ok _ _ _ _ _ (read_list_ok _ _ _ E)).
Qed.

Lemma list_reverse_ok st l items :
  heap st !! l = Some (PyList items) ->
  Store.list_reverse l st =
    (Ok tt, State (<[l := PyList (rev items)]> (heap st)) (steps st)).
Proof.
  intros E. unfold Store.list_reverse.
  by rewrite (bind_ok _ _ _ _ _ (read_list_ok _ _ _ E)).
Qed.

Lemma list_extend_ok st l src items more :
  heap st !! l = Some (PyList items) ->
  heap st !! src = Some (PyList more) ->
  Store.list_extend l src st =
    (Ok tt, State (<[l := PyList (items ++ more)]> (heap st)) (steps st)).
Proof.
  intros El Es. unfold Store.list_extend.
  rewrite (bind_ok _ _ _ _ _ (read_list_ok _ _ _ Es)).
  by rewrite (bind_ok _ _ _ _ _ (read_list_ok _ _ _ El)).
Qed.

(** The inner loop: it leaves in [new] the list the functional loop
    returns, and touches nothing else. *)
Lemma level_loop_sim op st arr items xs new acc r :
  Store.seq_denotes st arr items -> Store.seq_loc arr <> new ->
  heap st !! new = Some (PyList acc) ->
  level_loop op items xs acc = Ok r ->
  Store.level_loop op arr xs new st =
    (Ok tt, State (<[new := PyList r]> (heap st)) (steps st)).
Proof.
  intros Harr Hne. revert st acc Harr.
  induction xs as [|x xs IH]; intros st acc Harr Hnew Hr.
  - cbn in Hr. injection Hr as <-. cbn.
    by rewrite insert_id, state_eta.
  - cbn [level_loop] in Hr. cbn [Store.level_loop].
    rewrite (bind_ok _ _ _ (default sqrt2 (items !! (2 * x))) st).
    2:{ rewrite (seq_getitem_sim _ _ _ _ Harr). unfold getitem in *.
        by destruct (items !! (2 * x)). }
    rewrite (bind_ok _ _ _ (default sqrt2 (items !! (2 * x + 1))) st).
    2:{ rewrite (seq_getitem_sim _ _ _ _ Harr). unfold getitem in *.
        destruct (items !! (2 * x)); [|done].
        by destruct (items !! (2 * x + 1)). }
    unfold getitem in Hr.
    destruct (items !! (2 * x)) as [a|]; [|done].
    destruct (items !! (2 * x + 1)) as [b|]; [|done].
    cbn [mbind result_bind default] in *.
    rewrite (bind_ok _ _ _ _ _ (list_append_ok _ _ _ _ Hnew)).
    rewrite (IH _ (acc ++ [fdiv (op a b) sqrt2])).
    + cbn [heap steps]. by rewrite insert_insert_eq.
    + by apply seq_denotes_insert.
    + cbn [heap]. by rewrite lookup_insert_eq.
    + done.
Qed.

Lemma alloc_ok st (o : Store.obj T) :
  exists l, heap st !! l = None /\
    Store.alloc o st = (Ok l, State (<[l := o]> (heap st)) (steps st)).
Proof.
  exists (fresh (dom (heap st))). split; [|done].
  apply not_elem_of_dom, is_fresh.
Qed.

Lemma seq_denotes_loc st s items :
  Store.seq_denotes st s items -> is_Some (heap st !! Store.seq_loc s).
Proof.
  destruct s as [l|b off len]; cbn.
  - by eexists.
  - intros (data & Hb & _). by eexists.
Qed.

Lemma one_level_not_singleton op (items : list T) :
  length items <> 1 -> one_level op items = pairwise op items.
Proof. destruct items as [|a [|b l]]; cbn; try done. Qed.

(** One engine call: it returns a list that did not exist before,
    holding what the functional engine computes, and changes no object
    that existed. *)
Lemma get_coefficients_sim op st arr items :
  Store.seq_denotes st arr items ->
  exists l st',
    Store.bind (Store.alloc (PyList []))
      (fun new => Store.bind (Store.seq_len arr)
         (fun n => if n =? 1
                   then Store.bind (Store.seq_getitem arr 0)
                          (fun v => Store.alloc (PyList [v]))
                   else Store.bind (Store.level_loop op arr (seq 0 (n / 2)) new)
                          (fun _ => Store.ret new))) st = (Ok l, st') /\
    heap st !! l = None /\ heap st ⊆ heap st' /\
    heap st' !! l = Some (PyList (one_level op items)) /\
    steps st' = steps st.
Proof.
  intros Harr.
  destruct (alloc_ok st (PyList [])) as (new & Hnew & Enew).
  rewrite (bind_ok _ _ _ _ _ Enew).
  set (st1 := State (<[new := PyList []]> (heap st)) (steps st)).
  assert (Store.seq_loc arr <> new) as Hne.
  { intros <-. apply seq_denotes_loc in Harr as [? ?]. congruence. }
  assert (Store.seq_denotes st1 arr items) as Harr1
    by (by apply seq_denotes_insert).
  rewrite (bind_ok _ _ _ _ _ (seq_len_ok _ _ _ Harr1)).
  destruct (Nat.eqb_spec (length items) 1) as [E1|E1].
  - destruct items as [|v [|? ?]]; try done.
    rewrite (bind_ok _ _ _ v st1) by (by rewrite (seq_getitem_sim _ _ _ _ Harr1)).
    destruct (alloc_ok st1 (PyList [v])) as (l & Hl & El).
    exists l, (State (<[l := PyList [v]]> (heap st1)) (steps st1)).
    subst st1. cbn [heap steps] in *.
    assert (l <> new) as Hln by (intros ->; by rewrite lookup_insert_eq in Hl).
    rewrite lookup_insert_ne in Hl by done.
    repeat split; try done.
    + apply insert_subseteq_r; [done|]. by apply insert_subseteq.
    + by rewrite lookup_insert_eq.
  - rewrite (bind_ok _ _ _ _ _
      (level_loop_sim op st1 arr items _ new [] _ Harr1 Hne
         ltac:(by cbn; rewrite lookup_insert_eq) (level_loop_pairwise op items))).
    exists new. eexists. split; [reflexivity|]. subst st1. cbn [heap steps].
    rewrite insert_insert_eq, lookup_insert_eq, one_level_not_singleton by done.
    repeat split; try done. by apply insert_subseteq.
Qed.

Lemma get_approx_sim st arr items :
  Store.seq_denotes st arr items ->
  exists l st',
    Store._get_approx_coefficients arr st = (Ok l, st') /\
    heap st !! l = None /\ heap st ⊆ heap st' /\
    heap st' !! l = Some (PyList (one_level fadd items)) /\
    steps st' = steps st.
Proof. apply (get_coefficients_sim fadd). Qed.

Lemma get_wavelet_sim st arr items :
  Store.seq_denotes st arr items ->
  exists l st',
    Store._get_wavelet_coefficients arr st = (Ok l, st') /\
    heap st !! l = None /\ heap st ⊆ heap st' /\
    heap st' !! l = Some (PyList (one_level fsub items)) /\
    steps st' = steps st.
Proof. apply (get_coefficients_sim fsub). Qed.

(** The loop over the levels.  [coeffs] and the list [approx] names
    hold what the functional loop returns. *)
Lemma levels_loop_sim n st current items approx appr coeffs c appr' c' :
  Store.seq_denotes st current items ->
  Store.seq_loc current <> coeffs ->
  heap st !! coeffs = Some (PyList c) ->
  Store.approx_denotes st coeffs approx appr ->
  levels_loop n items appr c = Ok (appr', c') ->
  exists approx' st',
    Store.levels_loop n current approx coeffs st = (Ok approx', st') /\
    heap st' !! coeffs = Some (PyList c') /\
    Store.approx_denotes st' coeffs approx' appr' /\
    steps st' = steps st.
Proof.
  revert st current items approx appr c.
  induction n as [|n IH]; intros st current items approx appr c
    Hcur Hne Hc Happr Hpure.
  - cbn in Hpure. injection Hpure as <- <-. by exists approx, st.
  - cbn [levels_loop Store.levels_loop] in *.
    rewrite get_approx_eq, get_wavelet_eq in Hpure.
    cbn [mbind result_bind] in Hpure.
    destruct (get_approx_sim st current items Hcur)
      as (a & st1 & Ea & Ha & Hsub1 & Ha1 & Hs1).
    rewrite (bind_ok _ _ _ _ _ Ea).
    destruct (get_wavelet_sim st1 current items
                (seq_denotes_mono _ _ _ _ Hsub1 Hcur))
      as (w & st2 & Ew & Hw & Hsub2 & Hw2 & Hs2).
    rewrite (bind_ok _ _ _ _ _ Ew).
    rewrite (bind_ok _ _ _ _ _ (list_reverse_ok _ _ _ Hw2)).
    assert (heap st1 !! coeffs = Some (PyList c)) as Hc1
      by (by eapply lookup_weaken).
    assert (heap st2 !! coeffs = Some (PyList c)) as Hc2
      by (by eapply lookup_weaken).
    assert (heap st2 !! a = Some (PyList (one_level fadd items))) as Ha2
      by (by eapply lookup_weaken).
    assert (coeffs <> w) as Hcw by congruence.
    assert (a <> w) as Haw by congruence.
    assert (a <> coeffs) as Hac by congruence.
    erewrite bind_ok.
    2:{ apply (list_extend_ok _ coeffs w c (rev (one_level fsub items))).
        - cbn [heap]. by rewrite lookup_insert_ne.
        - cbn [heap]. by rewrite lookup_insert_eq. }
    cbn [heap steps].
    match goal with
    | |- context [Store.levels_loop n _ _ _ ?st4] =>
        destruct (IH st4 (Store.SList a) (one_level fadd items) (Some a)
                    (Some (one_level fadd items))
                    (c ++ rev (one_level fsub items)))
          as (approx' & st' & E' & Hc' & Happr' & Hs'); [..|exact Hpure|]
    end.
    + cbn. by rewrite !lookup_insert_ne.
    + done.
    + cbn [heap]. by rewrite lookup_insert_eq.
    + cbn. by rewrite !lookup_insert_ne.
    + exists approx', st'. rewrite E'. repeat split; try done.
      rewrite Hs'. cbn. congruence.
Qed.

(** One instance: the sequence handed back holds what the functional
    [extract_instance] returns, and the same exception is raised where
    that one raises. *)
Lemma extract_instance_sim num_levels st x items :
  Store.seq_denotes st x items ->
  match extract_instance num_levels items with
  | Ok out =>
      exists s st',
        Store.extract_instance num_levels x st = (Ok s, st') /\
        Store.seq_denotes st' s out /\ steps st' = steps st
  | Raise e =>
      exists st',
        Store.extract_instance num_levels x st = (Raise e, st') /\
        steps st' = steps st
  end.
Proof.
  intros Hx. unfold extract_instance, Store.extract_instance.
  destruct (py_eq_zero num_levels); [by exists x, st|].
  destruct (alloc_ok st (PyList [])) as (coeffs & Hfresh & Ealloc).
  rewrite (bind_ok _ _ _ _ _ Ealloc).
  set (st1 := State (<[coeffs := PyList []]> (heap st)) (steps st)).
  destruct (py_range num_levels) as [n|e]; cbn [mbind result_bind].
  2:{ exists st1. split; [|done]. by apply bind_raise. }
  rewrite (bind_ok _ _ _ n st1) by done.
  rewrite levels_loop_spec. cbn [mbind result_bind].
  assert (Store.seq_loc x <> coeffs) as Hne.
  { intros <-. apply seq_denotes_loc in Hx as [? ?]. congruence. }
  edestruct (levels_loop_sim n st1 x items None None coeffs [])
    as (approx & st2 & E2 & Hc2 & Ha2 & Hs2);
    [by apply seq_denotes_insert | done
    | by (cbn; rewrite lookup_insert_eq) | done
    | apply levels_loop_spec |].
  rewrite (bind_ok _ _ _ _ _ E2).
  destruct n as [|n]; destruct approx as [a|]; try done.
  { exists st2. split; [done|]. by rewrite Hs2. }
  destruct Ha2 as [Ha2 Hac].
  rewrite (bind_ok _ _ _ _ _ (list_reverse_ok _ _ _ Ha2)).
  erewrite bind_ok.
  2:{ eapply (list_extend_ok _ coeffs a).
      - cbn [heap]. rewrite lookup_insert_ne by done. exact Hc2.
      - cbn [heap]. by rewrite lookup_insert_eq. }
  erewrite bind_ok.
  2:{ apply list_reverse_ok. cbn [heap]. by rewrite lookup_insert_eq. }
  eexists _, _. split; [reflexivity|]. cbn.
  split; [by rewrite lookup_insert_eq | by rewrite Hs2].
Qed.

Lemma seq_denotes_all_mono st st' (res : list Store.seqref) (items : list (list T)) :
  heap st ⊆ heap st' -> Forall2 (Store.seq_denotes st) res items ->
  Forall2 (Store.seq_denotes st') res items.
Proof.
  intros Hsub Hall. eapply Forall2_impl; [exact Hall|].
  intros s i. by apply seq_denotes_mono.
Qed.

Lemma extract_instance_keeps num_levels x st :
  heap st ⊆ heap (Store.extract_instance num_levels x st).2.
Proof. by apply (frames_extract_instance (heap st) num_levels x st). Qed.

Lemma extract_loop_sim num_levels st data items res res_items :
  Forall2 (Store.seq_denotes st) data items ->
  Forall2 (Store.seq_denotes st) res res_items ->
  match extract_loop num_levels items res_items with
  | Ok out =>
      exists r st',
        Store.extract_loop num_levels data res st = (Ok r, st') /\
        Forall2 (Store.seq_denotes st') r out /\
        heap st ⊆ heap st' /\ steps st' = steps st
  | Raise e =>
      exists st',
        Store.extract_loop num_levels data res st = (Raise e, st') /\
        heap st ⊆ heap st' /\ steps st' = steps st
  end.
Proof.
  revert st items res res_items.
  induction data as [|x data IH]; intros st items res res_items Hdata Hres.
  - apply Forall2_nil_inv_l in Hdata as ->. cbn. by exists res, st.
  - apply Forall2_cons_inv_l in Hdata as (xi & items' & Hx & Hdata & ->).
    cbn [extract_loop Store.extract_loop].
    pose proof (extract_instance_sim num_levels st x xi Hx) as Hsim.
    pose proof (extract_instance_keeps num_levels x st) as Hkeep.
    destruct (extract_instance num_levels xi) as [c|e]; cbn [mbind result_bind].
    + destruct Hsim as (s & st1 & E1 & Hs & Hsteps).
      rewrite E1 in Hkeep. cbn in Hkeep.
      rewrite (bind_ok _ _ _ _ _ E1).
      specialize (IH st1 items' (res ++ [s]) (res_items ++ [c])
                    (seq_denotes_all_mono _ _ _ _ Hkeep Hdata)).
      destruct (extract_loop num_levels items' (res_items ++ [c])) as [out|e].
      * destruct IH as (r & st' & E & Hr & Hsub & Hst).
        { apply Forall2_app; [by eapply seq_denotes_all_mono|]. by constructor. }
        exists r, st'. repeat split; try done; [by etrans|congruence].
      * destruct IH as (st' & E & Hsub & Hst).
        { apply Forall2_app; [by eapply seq_denotes_all_mono|]. by constructor. }
        exists st'. repeat split; try done; [by etrans|congruence].
    + destruct Hsim as (st1 & E1 & Hsteps).
      rewrite E1 in Hkeep. cbn in Hkeep.
      exists st1. split; [by apply bind_raise|done].
Qed.

(** The rows of the flat array are the rows of the array value. *)
Lemma rows_sim st arr a n w :
  Store.denotes st arr a -> Store.v_shape arr = [n; w] ->
  Forall2 (Store.seq_denotes st) (Store.rows arr) (rows a).
Proof.
  intros (data & Hbuf & Hshape & Hwf & Hfit & Hdata) Hs.
  unfold Store.rows, rows. rewrite Hshape, Hs.
  rewrite Hshape, Hs in Hwf. cbn [foldr] in Hwf.
  assert (forall idx, Forall (fun i => i < n) idx ->
    Forall2 (Store.seq_denotes st)
      (map (fun i => Store.SRow (Store.v_buf arr) (Store.v_off arr + i * w) w) idx)
      (map (fun i => take w (drop (i * w) (nd_data a))) idx)) as Hgen.
  { induction 1 as [|i idx Hi _ IH]; cbn [map]; constructor; [|done].
    exists data. split; [done|]. split; [nia|].
    rewrite Hdata, skipn_firstn_comm, take_take, drop_drop.
    f_equal. rewrite Hwf. nia. }
  apply Hgen, Forall_forall. intros i Hi.
  by apply list_elem_of_In, in_seq in Hi as [_ Hi].
Qed.

Lemma convert_sim st X a :
  Store.denotes st X a ->
  match convert_numpy3D_to_numpyflat a with
  | Ok a' =>
      exists X',
        Store.convert_numpy3D_to_numpyflat X st = (Ok X', st) /\
        Store.denotes st X' a' /\
        exists n w, Store.v_shape X' = [n; w]
  | Raise e => Store.convert_numpy3D_to_numpyflat X st = (Raise e, st)
  end.
Proof.
  intros (data & Hbuf & Hshape & Hwf & Hfit & Hdata).
  unfold convert_numpy3D_to_numpyflat, Store.convert_numpy3D_to_numpyflat.
  rewrite <- Hshape.
  destruct (nd_shape a) as [|n [|v [|t [|? ?]]]] eqn:Es; try done.
  cbn [foldr] in Hwf.
  assert (length (nd_data a) = n * v * t) as Hlen by lia.
  rewrite Hlen, Nat.eqb_refl.
  rewrite (bind_ok _ _ _ _ _ (read_buffer_ok _ _ _ Hbuf)).
  destruct (Nat.leb_spec (Store.v_off X + n * v * t) (length data)); [|lia].
  eexists. split; [reflexivity|]. split; [|by eexists _, _].
  exists data. cbn. repeat split; try done; lia.
Qed.

Lemma read_all_ok st (res : list Store.seqref) (items : list (list T)) :
  Forall2 (Store.seq_denotes st) res items ->
  Store.read_all res st = (Ok items, st).
Proof.
  induction 1 as [|s i res items Hs _ IH]; [done|].
  cbn [Store.read_all].
  rewrite (bind_ok _ _ _ _ _ (seq_items_ok _ _ _ Hs)).
  by rewrite (bind_ok _ _ _ _ _ IH).
Qed.

Lemma denotes_fresh_buffer st b (shape : list nat) (d : list T) :
  length d = foldr Nat.mul 1 shape ->
  Store.denotes (State (<[b := NdBuffer d]> (heap st)) (steps st))
    (Store.NdView b 0 shape) (NdArray shape d).
Proof.
  intros Hd. exists d. cbn. rewrite lookup_insert_eq.
  repeat split; try done. by rewrite firstn_all.
Qed.

Lemma np_asarray_sim st (res : list Store.seqref) (items : list (list T)) :
  Forall2 (Store.seq_denotes st) res items ->
  match np_asarray items with
  | Ok a =>
      exists Xt st',
        Store.np_asarray res st = (Ok Xt, st') /\
        Store.denotes st' Xt a /\ steps st' = steps st
  | Raise e => Store.np_asarray res st = (Raise e, st)
  end.
Proof.
  intros Hres. unfold np_asarray, Store.np_asarray.
  rewrite (bind_ok _ _ _ _ _ (read_all_ok _ _ _ Hres)).
  destruct items as [|r items].
  - destruct (alloc_ok st (NdBuffer [])) as (b & Hb & Eb).
    rewrite (bind_ok _ _ _ _ _ Eb).
    eexists _, _. split; [reflexivity|]. split; [|done].
    by apply denotes_fresh_buffer.
  - destruct (forallb _ (r :: items)) eqn:Eall; [|done].
    destruct (alloc_ok st (NdBuffer (concat (r :: items)))) as (b & Hb & Eb).
    rewrite (bind_ok _ _ _ _ _ Eb).
    eexists _, _. split; [reflexivity|]. split; [|done].
    apply denotes_fresh_buffer. cbn [foldr].
    rewrite (uniform_concat_length (length r)); [lia|].
    apply Forall_forall. intros r' Hr'.
    rewrite forallb_forall in Eall.
    by apply Nat.eqb_eq, Eall, list_elem_of_In.
Qed.

Lemma denotes_same_heap st st' X a :
  heap st' = heap st -> Store.denotes st X a -> Store.denotes st' X a.
Proof. intros E (data & Hd). exists data. by rewrite E. Qed.

Lemma shape_at_sim st X a i :
  Store.denotes st X a -> Store.shape_at X i st = (shape_at a i, st).
Proof.
  intros (data & _ & Hshape & _). unfold Store.shape_at, shape_at.
  rewrite Hshape. by destruct (Store.v_shape X !! i).
Qed.

Lemma np_reshape_sim st X a shape :
  Store.denotes st X a ->
  match np_reshape a shape with
  | Ok a' =>
      exists X',
        Store.np_reshape X shape st = (Ok X', st) /\ Store.denotes st X' a'
  | Raise e => Store.np_reshape X shape st = (Raise e, st)
  end.
Proof.
  intros (data & Hbuf & Hshape & Hwf & Hfit & Hdata).
  unfold np_reshape, Store.np_reshape. rewrite <- Hshape, <- Hwf.
  destruct (Nat.eqb_spec (length (nd_data a)) (foldr Nat.mul 1 shape)); [|done].
  eexists. split; [reflexivity|]. by exists data.
Qed.

(** The whole transform.  Started on a view that denotes the array [a],
    the store program returns a view that denotes what the functional
    [_transform] returns on [a], after its four statements; and it
    raises the same exception where the functional one raises. *)
Lemma transform_sim num_levels st X a :
  Store.denotes st X a ->
  match _transform num_levels a with
  | Ok a' =>
      exists Xt st',
        Store._transform num_levels X st = (Ok Xt, st') /\
        Store.denotes st' Xt a' /\
        steps st' = steps st ++ [Store.StepConvert; Store.StepExtract;
                                 Store.StepAsarray; Store.StepReshape]
  | Raise e => exists st', Store._transform num_levels X st = (Raise e, st')
  end.
Proof.
  intros HX. unfold _transform, Store._transform.
  destruct (_check_parameters num_levels) as [[]|e]; cbn [mbind result_bind].
  2:{ by exists st. }
  rewrite (bind_ok _ _ _ tt st) by done.
  rewrite (bind_ok _ _ _ tt (State (heap st) (steps st ++ [Store.StepConvert])))
    by done.
  set (st1 := State (heap st) (steps st ++ [Store.StepConvert])).
  pose proof (convert_sim st1 X a (denotes_same_heap st st1 X a eq_refl HX))
    as Hconv.
  destruct (convert_numpy3D_to_numpyflat a) as [arr|e]; cbn [mbind result_bind].
  2:{ exists st1. by apply bind_raise. }
  destruct Hconv as (X' & Econv & Harr & n & w & Hs).
  rewrite (bind_ok _ _ _ _ _ Econv).
  set (st2 := State (heap st1) (steps st1 ++ [Store.StepExtract])).
  rewrite (bind_ok _ _ _ tt st2) by done.
  pose proof (extract_loop_sim num_levels st2 (Store.rows X') (rows arr) [] []
    (rows_sim st2 X' arr n w (denotes_same_heap st1 st2 X' arr eq_refl Harr) Hs)
    (List.Forall2_nil _)) as Hloop.
  unfold _extract_wavelet_coefficients, Store._extract_wavelet_coefficients.
  destruct (extract_loop num_levels (rows arr) []) as [out|e];
    cbn [mbind result_bind].
  2:{ destruct Hloop as (st3 & E3 & _). exists st3. by apply bind_raise. }
  destruct Hloop as (r & st3 & E3 & Hr & Hsub3 & Hsteps3).
  rewrite (bind_ok _ _ _ _ _ E3).
  set (st4 := State (heap st3) (steps st3 ++ [Store.StepAsarray])).
  rewrite (bind_ok _ _ _ tt st4) by done.
  pose proof (np_asarray_sim st4 r out
    (seq_denotes_all_mono st3 st4 r out (reflexivity _) Hr)) as Harray.
  destruct (np_asarray out) as [td|e]; cbn [mbind result_bind].
  2:{ exists st4. by apply bind_raise. }
  destruct Harray as (Xtd & st5 & E5 & Htd & Hsteps5).
  rewrite (bind_ok _ _ _ _ _ E5).
  set (st6 := State (heap st5) (steps st5 ++ [Store.StepReshape])).
  rewrite (bind_ok _ _ _ tt st6) by done.
  assert (Store.denotes st6 Xtd td) as Htd6
    by (by apply (denotes_same_heap st5 st6)).
  pose proof (shape_at_sim st6 Xtd td 0 Htd6) as E0.
  pose proof (shape_at_sim st6 Xtd td 1 Htd6) as E1.
  destruct (shape_at td 0) as [s0|e]; cbn [mbind result_bind].
  2:{ exists st6. by apply bind_raise. }
  rewrite (bind_ok _ _ _ _ _ E0).
  destruct (shape_at td 1) as [s1|e]; cbn [mbind result_bind].
  2:{ exists st6. by apply bind_raise. }
  rewrite (bind_ok _ _ _ _ _ E1).
  pose proof (np_reshape_sim st6 Xtd td [s0; s1; 1] Htd6) as Hre.
  destruct (np_reshape td [s0; s1; 1]) as [a'|e].
  2:{ by exists st6. }
  destruct Hre as (Xt & Ere & HXt).
  exists Xt, st6. split; [done|]. split; [done|].
  subst st6 st4 st2 st1. cbn [steps] in *.
  rewrite Hsteps5. cbn [steps]. rewrite Hsteps3. cbn [steps].
  by rewrite <- !app_assoc.
Qed.

Lemma transform_keeps num_levels X st :
  heap st ⊆ heap (Store._transform num_levels X st).2 /\
  forall Xt, (Store._transform num_levels X st).1 = Ok Xt ->
    heap st !! Store.v_buf Xt = None.
Proof. by apply (frames_transform (heap st) num_levels X st). Qed.

Lemma denotes_mono st st' X a :
  heap st ⊆ heap st' -> Store.denotes st X a -> Store.denotes st' X a.
Proof.
  intros Hsub (data & Hbuf & Hrest). exists data.
  split; [by eapply lookup_weaken|done].
Qed.

(** C8.  The transform writes to no object that existed before the
    call.  From any store, for any parameter and any view [X]: every
    object of the initial store, the buffer of [X] among them, is found
    unchanged in the final store; the array returned lives in a buffer
    that did not exist before; and when [X] denotes an array on which the
    functional transform succeeds, the run does return, [X] still denotes
    that array, and the result denotes the transformed array. *)
Theorem transform_does_not_mutate (num_levels : pyobj) (X : Store.ndview)
    (st : Store.state T) :
  (forall l o, heap st !! l = Some o ->
     heap (Store._transform num_levels X st).2 !! l = Some o) /\
  (forall Xt, (Store._transform num_levels X st).1 = Ok Xt ->
     heap st !! Store.v_buf Xt = None) /\
  (forall a a', Store.denotes st X a -> _transform num_levels a = Ok a' ->
     exists Xt,
       (Store._transform num_levels X st).1 = Ok Xt /\
       Store.denotes (Store._transform num_levels X st).2 X a /\
       Store.denotes (Store._transform num_levels X st).2 Xt a' /\
       Store.v_buf Xt <> Store.v_buf X).
Proof.
  destruct (transform_keeps num_levels X st) as [Hkeep Hfresh].
  split; [|split].
  - intros l o Hl. by eapply lookup_weaken.
  - exact Hfresh.
  - intros a a' HX Hpure.
    pose proof (transform_sim num_levels st X a HX) as Hsim.
    rewrite Hpure in Hsim. destruct Hsim as (Xt & st' & E & HXt & _).
    rewrite E in *. cbn [fst snd] in *. exists Xt.
    split; [done|]. split; [by eapply denotes_mono|]. split; [done|].
    intros Eq. destruct HX as (data & Hbuf & _).
    rewrite <- Eq, (Hfresh Xt eq_refl) in Hbuf. done.
Qed.

(** C5.  The parameter check comes first.  With a negative integer the
    transform raises the [ValueError] of [_check_parameters] (the
    out-of-range variant), with an object that is not an integer its
    [TypeError] (the type-mismatch variant), whatever the panel is, and
    the store is then exactly as it was: no statement after the check was
    run and nothing was allocated.  With [num_levels = 3] the transform
    of a dense panel of ten instances returns. *)
Theorem parameters_checked_first :
  (forall (z : Z) (X : Store.ndview) (st : Store.state T) (a : ndarray T),
     (z <= -1)%Z ->
     Store._transform z X st =
       (Raise (ValueError "num_levels must have the valueof at least 0"), st) /\
     _transform z a =
       Raise (ValueError "num_levels must have the valueof at least 0") /\
     configuration_error_of
       (ValueError "num_levels must have the valueof at least 0") = Some OutOfRange) /\
  (forall (o : pyobj) (X : Store.ndview) (st : Store.state T) (a : ndarray T),
     as_int o = None ->
     exists msg,
       Store._transform o X st = (Raise (TypeError msg), st) /\
       _transform o a = Raise (TypeError msg) /\
       configuration_error_of (TypeError msg) = Some TypeMismatch) /\
  (forall (X : Store.ndview) (st : Store.state T) (a : ndarray T),
     Store._transform (PyStr "3") X st =
       (Raise (TypeError "num_levels must be an 'int'. Found'str' instead."), st) /\
     _transform (PyStr "3") a =
       Raise (TypeError "num_levels must be an 'int'. Found'str' instead.")) /\
  (forall (X : Store.ndview) (st : Store.state T) (a : ndarray T) (v t : nat),
     Store.denotes st X a -> nd_shape a = [10; v; t] ->
     exists a' Xt st',
       _transform 3 a = Ok a' /\
       Store._transform 3 X st = (Ok Xt, st') /\
       Store.denotes st' Xt a').
Proof.
  split; [|split; [|split]].
  - intros z X st a Hz.
    assert (_check_parameters z =
              Raise (ValueError "num_levels must have the valueof at least 0")) as E.
    { unfold _check_parameters. cbn [as_int].
      by destruct (Z.leb_spec z (-1)); [|lia]. }
    unfold Store._transform, _transform. rewrite E. by repeat split.
  - intros o X st a Ho. eexists.
    unfold Store._transform, _transform, _check_parameters. rewrite Ho.
    by repeat split.
  - intros X st a. by split.
  - intros X st a v t HX Hs.
    assert (length (nd_data a) = 10 * v * t) as Hlen.
    { destruct HX as (data & _ & _ & Hwf & _). rewrite Hwf, Hs. cbn. lia. }
    pose proof (transform_ok 3 10 v t a Hs Hlen ltac:(lia)) as Hpure.
    change (Z.of_nat 3) with 3%Z in Hpure.
    pose proof (transform_sim 3%Z st X a HX) as Hsim.
    rewrite Hpure in Hsim. destruct Hsim as (Xt & st' & E & HXt & _).
    by eexists _, Xt, st'.
Qed.

End Simulation.

End StoreFacts.

(** ** Broadcasting over a panel *)

Module BroadcastFacts.
Import Broadcast.

Section Representations.
Context {T : Type}.
Implicit Types (insts : list (list (list T))) (inst m : list (list T)).

Lemma all_length_Forall {A} (n : nat) (ls : list (list A)) :
  all_length n ls = true <-> Forall (fun l => length l = n) ls.
Proof.
  unfold all_length. rewrite forallb_forall, Forall_forall.
  split; intros Hall l Hl.
  - by apply Nat.eqb_eq, Hall, list_elem_of_In.
  - by apply Nat.eqb_eq, Hall, list_elem_of_In.
Qed.

Lemma rectangular_spec n v t insts :
  rectangular n v t insts = true <->
  length insts = n /\
  Forall (fun inst => length inst = v /\ Forall (fun y => length y = t) inst) insts.
Proof.
  unfold rectangular. rewrite andb_true_iff, Nat.eqb_eq, forallb_forall, Forall_forall.
  split; intros [Hn Hall]; (split; [done|]); intros inst Hin.
  - apply list_elem_of_In, Hall, andb_true_iff in Hin as [Hv Ht].
    split; [by apply Nat.eqb_eq|by apply all_length_Forall].
  - apply list_elem_of_In, Hall in Hin as [Hv Ht].
    apply andb_true_iff. split; [by apply Nat.eqb_eq|by apply all_length_Forall].
Qed.

(** *** Chunks of a concatenation *)

Lemma chunks_concat_gen (w : nat) (ls : list (list T)) (pre post : list T) (k : nat) :
  Forall (fun l => length l = w) ls -> length pre = k * w ->
  map (fun i => take w (drop (i * w) (pre ++ concat ls ++ post)))
      (seq k (length ls)) = ls.
Proof.
  intros Hall. revert pre k.
  induction Hall as [|l ls Hl _ IH]; intros pre k Hpre; [done|].
  cbn [length seq map concat]. f_equal.
  - rewrite drop_app_length' by done.
    rewrite <- !app_assoc. by apply take_app_length'.
  - rewrite <- !app_assoc.
    replace (pre ++ l ++ concat ls ++ post) with ((pre ++ l) ++ concat ls ++ post)
      by (by rewrite <- app_assoc).
    apply IH. rewrite length_app, Hpre, Hl. lia.
Qed.

Lemma chunks_concat (w : nat) (ls : list (list T)) :
  Forall (fun l => length l = w) ls -> chunks (length ls) w (concat ls) = ls.
Proof.
  intros Hall. unfold chunks.
  rewrite <- (app_nil_r (concat ls)).
  by apply (chunks_concat_gen w ls [] [] 0).
Qed.

Lemma concat_length_uniform {A} (w : nat) (ls : list (list A)) :
  Forall (fun l => length l = w) ls -> length (concat ls) = length ls * w.
Proof.
  induction 1 as [|l ls Hl _ IH]; [done|].
  cbn. rewrite length_app, IH, Hl. lia.
Qed.

Lemma concat_map_concat {A} (lss : list (list (list A))) :
  concat (map (fun ls => concat ls) lss) = concat (concat lss).
Proof.
  induction lss as [|ls lss IH]; [done|].
  cbn. by rewrite concat_app, IH.
Qed.

(** *** Transposition *)

Lemma transpose_first_column (t : nat) (x : list T) m :
  length x = t -> concat (map (take 1) (transpose t (x :: m))) = x.
Proof.
  revert x m. induction t as [|t IH]; intros x m Hx.
  - by destruct x.
  - destruct x as [|a x]; [done|].
    cbn [transpose map concat take drop app]. f_equal.
    apply IH. by injection Hx.
Qed.

Lemma transpose_other_columns (t : nat) (x : list T) m :
  length x = t -> map (drop 1) (transpose t (x :: m)) = transpose t m.
Proof.
  revert x m. induction t as [|t IH]; intros x m Hx; [done|].
  destruct x as [|a x]; [done|].
  cbn [transpose map concat take drop app]. f_equal.
  apply IH. by injection Hx.
Qed.

Lemma transpose_involutive (v t : nat) m :
  length m = v -> Forall (fun y => length y = t) m ->
  transpose v (transpose t m) = m.
Proof.
  intros Hv Hall. revert v Hv.
  induction Hall as [|x m Hx _ IH]; intros v Hv.
  - by subst v.
  - subst v. cbn [length transpose]. f_equal.
    + by apply transpose_first_column.
    + rewrite transpose_other_columns by done. by apply IH.
Qed.

Lemma transpose_length (t : nat) m : length (transpose t m) = t.
Proof.
  revert m. induction t as [|t IH]; intros m; [done|].
  cbn. by rewrite IH.
Qed.

Lemma transpose_head_length (t : nat) m :
  1 <= t -> Forall (fun y => length y = t) m ->
  head_length (transpose t m) = length m.
Proof.
  intros Ht Hall. destruct t as [|t]; [lia|]. cbn [transpose head_length].
  induction Hall as [|x m Hx _ IH]; [done|].
  destruct x as [|a x]; [done|].
  cbn [map concat take app length]. by f_equal.
Qed.

(** *** The long table *)

Lemma filter_timed_rows (i j target : nat) (vals : list (list T)) :
  List.filter (fun r => r.1.1 =? target) (timed_rows i j vals) =
    if i =? target then timed_rows i j vals else [].
Proof.
  revert j. induction vals as [|v vals IH]; intros j.
  - by destruct (i =? target).
  - cbn [timed_rows List.filter fst]. rewrite IH. by destruct (i =? target).
Qed.

Lemma filter_long_rows_lt (k target : nat) insts :
  target < k -> List.filter (fun r => r.1.1 =? target) (long_rows k insts) = [].
Proof.
  revert k. induction insts as [|inst insts IH]; intros k Hk; [done|].
  cbn [long_rows]. rewrite List.filter_app, filter_timed_rows, IH by lia.
  by destruct (Nat.eqb_spec k target); [lia|].
Qed.

Lemma filter_long_rows (k i : nat) insts inst :
  insts !! i = Some inst ->
  List.filter (fun r => r.1.1 =? k + i) (long_rows k insts) =
    timed_rows (k + i) 0 (transpose (head_length inst) inst).
Proof.
  revert k i. induction insts as [|inst0 insts IH]; intros k i Hi; [done|].
  cbn [long_rows]. rewrite List.filter_app, filter_timed_rows.
  destruct i as [|i].
  - injection Hi as ->. rewrite Nat.add_0_r, Nat.eqb_refl.
    rewrite filter_long_rows_lt by lia. by rewrite app_nil_r.
  - cbn in Hi. destruct (Nat.eqb_spec k (k + S i)); [lia|].
    replace (k + S i) with (S k + i) by lia. by apply IH.
Qed.

Lemma map_snd_timed_rows (i j : nat) (vals : list (list T)) :
  map snd (timed_rows i j vals) = vals.
Proof.
  revert j. induction vals as [|v vals IH]; intros j; [done|].
  cbn. by rewrite IH.
Qed.

Lemma max_timed_rows (i j : nat) (vals : list (list T)) :
  vals <> [] -> list_max (map (fun r => S r.1.1) (timed_rows i j vals)) = S i.
Proof.
  revert j. induction vals as [|v vals IH]; intros j Hne; [done|].
  cbn [timed_rows map list_max fst].
  destruct vals as [|v' vals]; [cbn; lia|].
  change (list_max (S i :: ?l)) with (Nat.max (S i) (list_max l)).
  rewrite IH by done. lia.
Qed.

Lemma max_long_rows (k : nat) insts :
  Forall (fun inst => 1 <= head_length inst) insts -> insts <> [] ->
  list_max (map (fun r => S r.1.1) (long_rows k insts)) = k + length insts.
Proof.
  intros Hall. revert k.
  induction Hall as [|inst insts Hinst _ IH]; intros k Hne; [done|].
  cbn [long_rows length]. rewrite map_app, list_max_app, max_timed_rows.
  - destruct insts as [|inst' insts]; [cbn; lia|].
    rewrite IH by done. cbn [length]. lia.
  - intros E. apply (f_equal length) in E.
    rewrite transpose_length in E. cbn in E. lia.
Qed.

(** *** Encoding and decoding *)

Lemma head_length_first n v t insts :
  rectangular n v t insts = true -> 1 <= n -> head_length insts = v.
Proof.
  intros [Hn Hall]%rectangular_spec Hpos.
  destruct Hall as [|inst insts [Hv _] _]; [cbn in Hn; lia|done].
Qed.

Lemma rectangular_series n v t insts :
  rectangular n v t insts = true -> Forall (fun y => length y = t) (concat insts).
Proof.
  intros [_ Hall]%rectangular_spec.
  induction Hall as [|inst insts [_ Ht] _ IH]; [done|].
  cbn. by apply Forall_app.
Qed.

Lemma rectangular_widths n v t insts :
  rectangular n v t insts = true -> Forall (fun inst => length inst = v) insts.
Proof.
  intros [_ Hall]%rectangular_spec.
  eapply Forall_impl; [exact Hall|]. by intros inst [Hv _].
Qed.

Lemma head_length_series n v t insts :
  rectangular n v t insts = true -> 1 <= n -> 1 <= v ->
  head_length (concat insts) = t.
Proof.
  intros [Hn Hall]%rectangular_spec Hpos Hv.
  destruct Hall as [|inst insts [Hw Ht] _]; [cbn in Hn; lia|].
  destruct Ht as [|y inst Hy _]; [cbn in Hw; lia|done].
Qed.

Lemma map_seq_lookup {A} (f : nat -> A) (l : list A) :
  (forall i x, l !! i = Some x -> f i = x) -> map f (seq 0 (length l)) = l.
Proof.
  intros Hf. apply list_eq. intros i.
  change (map f (seq 0 (length l))) with (f <$> seq 0 (length l)).
  rewrite list_lookup_fmap.
  destruct (l !! i) as [x|] eqn:E.
  - rewrite lookup_seq_lt by (by eapply lookup_lt_Some).
    cbn. f_equal. by apply Hf.
  - rewrite lookup_seq_ge; [done|]. by apply lookup_ge_None.
Qed.

(** The converter is lossless on rectangular panels: decoding what was
    encoded gives the instances back, in every representation. *)
Lemma rectangular_instances n v t insts :
  rectangular n v t insts = true -> 1 <= v ->
  Forall (fun inst => head_length inst = t /\ length inst = v /\
                      Forall (fun y => length y = t) inst) insts.
Proof.
  intros [_ Hall]%rectangular_spec Hv.
  eapply Forall_impl; [exact Hall|]. intros inst [Hw Hy].
  split; [|done]. destruct Hy as [|y inst' Hy' _]; [cbn in Hw; lia|done].
Qed.

Lemma decode_encode (m : mtype) (n v t : nat) insts :
  rectangular n v t insts = true -> 1 <= n -> 1 <= v -> 1 <= t ->
  exists p, encode m insts = Ok p /\ mtype_of p = m /\ decode p = Ok insts.
Proof.
  intros Hrect Hn Hv Ht.
  pose proof (rectangular_series _ _ _ _ Hrect) as Hseries.
  pose proof (rectangular_widths _ _ _ _ Hrect) as Hwidths.
  pose proof (rectangular_instances _ _ _ _ Hrect Hv) as Hinst.
  pose proof (proj1 (rectangular_spec _ _ _ _) Hrect) as [Hlen _].
  destruct m; cbn [encode].
  - assert (forallb (fun inst => all_length (head_length inst) inst) insts = true)
      as ->.
    { apply forallb_forall. intros inst Hin%list_elem_of_In.
      rewrite Forall_forall in Hinst. destruct (Hinst inst Hin) as (-> & _ & Hy).
      by apply all_length_Forall. }
    eexists. split; [reflexivity|]. split; [done|].
    cbn [decode]. rewrite max_long_rows.
    2:{ eapply Forall_impl; [exact Hinst|]. by intros inst (-> & _). }
    2:{ intros ->. cbn in Hlen. lia. }
    f_equal. cbn [Nat.add]. apply map_seq_lookup. intros i inst Hi.
    pose proof (filter_long_rows 0 i insts inst Hi) as Hf.
    cbn [Nat.add] in Hf. rewrite Hf, map_snd_timed_rows.
    rewrite Forall_forall in Hinst.
    destruct (Hinst inst (list_elem_of_lookup_2 _ _ _ Hi)) as (Eh & Hw & Hy).
    rewrite Eh, transpose_head_length by done. by apply transpose_involutive.
  - by eexists.
  - rewrite (head_length_first _ _ _ _ Hrect), (head_length_series _ _ _ _ Hrect)
      by done.
    assert (all_length v insts = true) as -> by (by apply all_length_Forall).
    assert (all_length t (concat insts) = true) as -> by (by apply all_length_Forall).
    cbn [andb]. eexists. split; [reflexivity|]. split; [done|].
    cbn [decode nd_shape nd_data].
    assert (length (concat (concat insts)) = length insts * v * t) as ->.
    { rewrite (concat_length_uniform t) by done.
      by rewrite (concat_length_uniform v) by done. }
    rewrite Nat.eqb_refl. f_equal.
    rewrite <- concat_map_concat.
    rewrite <- (length_map (fun ls => concat ls) insts) at 1.
    rewrite chunks_concat, map_map.
    + rewrite <- (map_id insts) at 2. apply map_ext_Forall.
      rewrite Forall_forall in Hinst. apply Forall_forall.
      intros inst Hin. destruct (Hinst inst Hin) as (_ & <- & Hy).
      by apply chunks_concat.
    + apply Forall_map. rewrite Forall_forall in Hinst. apply Forall_forall.
      intros inst Hin. destruct (Hinst inst Hin) as (_ & <- & Hy).
      by apply concat_length_uniform.
Qed.

Lemma mtype_eqb_refl (m : mtype) : mtype_eqb m m = true.
Proof. by destruct m. Qed.

(** The validator on an encoded rectangular panel. *)
Lemma check_encoded (m : mtype) (n v t : nat) insts (p : panel T) :
  rectangular n v t insts = true -> 1 <= n -> 1 <= v ->
  mtype_of p = m -> decode p = Ok insts ->
  check_is_mtype p m = (true, Some (Metadata n true)).
Proof.
  intros Hrect Hn Hv Hm Hdec. unfold check_is_mtype.
  rewrite Hm, mtype_eqb_refl, Hdec.
  rewrite (head_length_first _ _ _ _ Hrect), (head_length_series _ _ _ _ Hrect)
    by done.
  assert (all_length v insts = true) as ->
    by (by eapply all_length_Forall, rectangular_widths).
  assert (all_length t (concat insts) = true) as ->
    by (by eapply all_length_Forall, rectangular_series).
  apply rectangular_spec in Hrect as [-> _]. done.
Qed.

End Representations.

Section Broadcasting.
Context {T : Type}.

Lemma apply_series_ok (op : list T -> result (list T)) (t' : nat)
    (vars : list (list T)) :
  Forall (fun y => exists r, op y = Ok r /\ length r = t') vars ->
  exists rs,
    apply_series op vars = Ok rs /\ length rs = length vars /\
    Forall (fun r => length r = t') rs.
Proof.
  induction 1 as [|y vars (r & Er & Hr) _ (rs & Ers & Hlen & Hall)].
  - by exists [].
  - exists (r :: rs). cbn [apply_series]. rewrite Er. cbn [mbind result_bind].
    rewrite Ers. cbn. repeat split; [by f_equal|by constructor].
Qed.

Lemma apply_instances_ok (op : list T -> result (list T)) (n v t t' : nat)
    (k : nat) (insts : list (list (list T))) :
  rectangular n v t insts = true ->
  Forall (Forall (fun y => exists r, op y = Ok r /\ length r = t')) insts ->
  exists results,
    apply_instances op k insts = Ok results /\
    rectangular n v t' results = true.
Proof.
  intros [Hn Hall]%rectangular_spec Hop.
  enough (exists results, apply_instances op k insts = Ok results /\
            length results = length insts /\
            Forall (fun inst => length inst = v /\
                      Forall (fun y => length y = t') inst) results)
    as (results & E & Hlen & Hres).
  { exists results. split; [done|]. apply rectangular_spec. split; [lia|done]. }
  clear Hn. revert k.
  induction Hop as [|inst insts Hinst _ IH]; intros k.
  - by exists [].
  - apply Forall_cons in Hall as [[Hw _] Hall].
    destruct (apply_series_ok op t' inst Hinst) as (r & Er & Hr & Hrl).
    destruct (IH Hall (S k)) as (rs & Ers & Hlen & Hres).
    exists (r :: rs). cbn [apply_instances]. unfold apply_instance.
    rewrite Er. cbn [mbind result_bind]. rewrite Ers. cbn.
    repeat split; [by f_equal|]. constructor; [|done]. split; [lia|done].
Qed.

(** Fitting and forecasting a rectangular panel, in any representation:
    the result is a panel in the same representation, with as many
    instances and variables, every forecast as long as the horizon. *)
Lemma broadcast_forecast (est : estimator T) (m : mtype) (n v t : nat)
    (fh : list Z) (insts : list (list (list T))) (y : panel T) :
  rectangular n v t insts = true -> 1 <= n -> 1 <= v -> 1 <= length fh ->
  mtype_of y = m -> decode y = Ok insts ->
  (forall inst s, inst ∈ insts -> s ∈ inst -> is_ok (fit est s) = true) ->
  (forall mdl, exists f, predict est mdl fh = Ok f /\ length f = length fh) ->
  exists y_pred forecasts,
    fit_then_predict est y fh = Ok y_pred /\
    mtype_of y_pred = m /\
    decode y_pred = Ok forecasts /\
    rectangular n v (length fh) forecasts = true.
Proof.
  intros Hrect Hn Hv Hfh Hm Hdec Hfit Hpred.
  unfold fit_then_predict, broadcast_apply. rewrite Hdec, Hm.
  cbn [mbind result_bind].
  destruct (apply_instances_ok (fit_predict est fh) n v t (length fh) 0 insts Hrect)
    as (results & Eres & Hres).
  { apply Forall_forall. intros inst Hinst. apply Forall_forall. intros s Hs.
    specialize (Hfit inst s Hinst Hs). unfold fit_predict.
    destruct (fit est s) as [mdl|e]; [|done]. cbn [mbind result_bind].
    apply Hpred. }
  rewrite Eres. cbn [mbind result_bind].
  destruct (decode_encode m n v (length fh) results Hres Hn Hv Hfh)
    as (y_pred & Eenc & Hmp & Hdp).
  by exists y_pred, results.
Qed.

(** C6.  The vectorization scenario.  A panel of ten instances of one
    variable, all of one positive length, is converted from the nested
    representation to any of the three representations; an estimator
    that understands one series only, whose fit succeeds on the series of
    the panel and whose forecasts are as long as the horizon, is fitted
    on it and asked for the horizon [1, 2, 3].  The result is a panel in
    the same representation, valid under it, with [n_instances = 10],
    [is_equal_length = True] and every forecast of length 3. *)
Theorem vectorization_series_to_panel (est : estimator T) (m : mtype)
    (t : nat) (y0 : list (list (list T))) :
  rectangular 10 1 t y0 = true -> 1 <= t ->
  (forall inst s, inst ∈ y0 -> s ∈ inst -> is_ok (fit est s) = true) ->
  (forall mdl fh, exists f, predict est mdl fh = Ok f /\ length f = length fh) ->
  exists y y_pred forecasts,
    convert (NestedUniv y0) nested_univ m = Ok y /\
    fit_then_predict est y [1; 2; 3]%Z = Ok y_pred /\
    check_is_mtype y_pred m = (true, Some (Metadata 10 true)) /\
    decode y_pred = Ok forecasts /\
    length forecasts = 10 /\
    Forall (Forall (fun f => length f = 3)) forecasts.
Proof.
  intros Hrect Ht Hfit Hpred.
  destruct (decode_encode m 10 1 t y0 Hrect) as (y & Ey & Hmy & Hdy); try lia.
  destruct (broadcast_forecast est m 10 1 t [1; 2; 3]%Z y0 y)
    as (y_pred & forecasts & Erun & Hmp & Hdp & Hrp);
    try done; try (cbn; lia).
  exists y, y_pred, forecasts.
  split; [by unfold convert; cbn|]. split; [done|].
  split; [by eapply (check_encoded m 10 1 3 forecasts); try lia|].
  split; [done|].
  apply rectangular_spec in Hrp as [Hlen Hall]. split; [done|].
  eapply Forall_impl; [exact Hall|]. by intros inst [_ Hy].
Qed.

End Broadcasting.

End BroadcastFacts.

(** ** The recovery identity, in exact arithmetic *)

Section RealArithmetic.
Local Open Scope R_scope.

Lemma sqrt2_neq_0 : sqrt 2 <> 0.
Proof. apply Rgt_not_eq, sqrt_lt_R0. lra. Qed.

Lemma pair_recovery (a b : R) :
  a = (fdiv (fadd a b) sqrt2 + fdiv (fsub a b) sqrt2) * sqrt 2 / 2 /\
  b = (fdiv (fadd a b) sqrt2 - fdiv (fsub a b) sqrt2) * sqrt 2 / 2.
Proof. cbn. pose proof sqrt2_neq_0. split; field; assumption. Qed.

Lemma one_level_recovery (arr : list R) (i : nat) :
  (2 <= length arr)%nat -> (i < length arr / 2)%nat ->
  exists a b p d : R,
    arr !! (2 * i)%nat = Some a /\ arr !! (2 * i + 1)%nat = Some b /\
    one_level fadd arr !! i = Some p /\ one_level fsub arr !! i = Some d /\
    a = (p + d) * sqrt 2 / 2 /\ b = (p - d) * sqrt 2 / 2.
Proof.
  intros Hlen Hi.
  destruct (proj1 one_level_contract arr Hlen)
    as (approx & detail & Ea & Ed & _ & _ & Hpair).
  rewrite get_approx_eq in Ea. rewrite get_wavelet_eq in Ed.
  injection Ea as <-. injection Ed as <-.
  destruct (Hpair i Hi) as (a & b & Ha & Hb & Hp & Hd).
  exists a, b, (fdiv (fadd a b) sqrt2), (fdiv (fsub a b) sqrt2).
  repeat split; try assumption; apply pair_recovery.
Qed.

(** C3.  Over the real numbers, one decomposition level of an input of
    length at least two determines the input pairs:
    [arr[2i] = (approx[i] + detail[i]) * sqrt(2)/2] and
    [arr[2i+1] = (approx[i] - detail[i]) * sqrt(2)/2] for every
    [i < floor(n/2)]; and the same holds at every level of the multi-level
    decomposition, between the approximation of level [k] and the
    approximation and detail of level [k + 1] computed from it. *)
Theorem haar_pair_recovery :
  (forall arr : list R, (2 <= length arr)%nat ->
     exists approx detail,
       _get_approx_coefficients arr = Ok approx /\
       _get_wavelet_coefficients arr = Ok detail /\
       forall i, (i < length arr / 2)%nat ->
         exists a b p d : R,
           arr !! (2 * i)%nat = Some a /\ arr !! (2 * i + 1)%nat = Some b /\
           approx !! i = Some p /\ detail !! i = Some d /\
           a = (p + d) * sqrt 2 / 2 /\ b = (p - d) * sqrt 2 / 2) /\
  (forall (x : list R) (k : nat), (2 <= length (approx_level k x))%nat ->
     _get_approx_coefficients (approx_level k x) = Ok (approx_level (S k) x) /\
     _get_wavelet_coefficients (approx_level k x) = Ok (detail_level (S k) x) /\
     forall i, (i < length (approx_level k x) / 2)%nat ->
       exists a b p d : R,
         approx_level k x !! (2 * i)%nat = Some a /\
         approx_level k x !! (2 * i + 1)%nat = Some b /\
         approx_level (S k) x !! i = Some p /\
         detail_level (S k) x !! i = Some d /\
         a = (p + d) * sqrt 2 / 2 /\ b = (p - d) * sqrt 2 / 2).
Proof.
  split.
  - intros arr Hlen.
    exists (one_level fadd arr), (one_level fsub arr).
    split; [apply get_approx_eq|]. split; [apply get_wavelet_eq|].
    intros i Hi. by apply one_level_recovery.
  - intros x k Hlen.
    rewrite get_approx_eq, get_wavelet_eq, approx_level_S.
    unfold detail_level. cbn [Nat.sub]. rewrite Nat.sub_0_r.
    repeat split. intros i Hi. by apply one_level_recovery.
Qed.

End RealArithmetic.

(** ** Further properties of the transformer *)

Section Further.
Context {T : Type} `{Scalar T}.

(** X1.  [_check_parameters] lets through the integers from 0 on and, since
    [bool] is a subclass of [int], the two booleans, and nothing else;
    [True] then runs one level and [False] none. *)
Theorem check_parameters_accepts (o : pyobj) :
  (_check_parameters o = Ok tt <->
     (exists z, o = PyInt z /\ (0 <= z)%Z) \/ (exists b, o = PyBool b)) /\
  (forall x : list T,
     extract_instance (PyBool true) x = extract_instance 1 x /\
     extract_instance (PyBool false) x = Ok x).
Proof.
  split; [|by intros x].
  unfold _check_parameters. split.
  - destruct o as [z|b|f|s|]; cbn [as_int]; try done.
    + destruct (Z.leb_spec z (-1)); [done|]. intros _. left. exists z. split; [done|lia].
    + intros _. right. by exists b.
  - intros [(z & -> & Hz)|(b & ->)]; cbn [as_int].
    + by destruct (Z.leb_spec z (-1)); [lia|].
    + by destruct b.
Qed.

Lemma extract_loop_negative (z : Z) (data res : list (list T)) :
  (z < 0)%Z ->
  extract_loop z data res =
    match data with [] => Ok res | _ :: _ => Raise AttributeError end.
Proof.
  intros Hz. destruct data as [|x data]; [done|].
  cbn [extract_loop]. by rewrite extract_instance_negative.
Qed.

(** X2.  Called without the check, the extraction fails on the first
    instance: with a negative [num_levels] the loop over the levels does
    not run, [approx] is still [None] and [approx.reverse()] raises
    [AttributeError]; with a string or [None], [range] raises
    [TypeError].  On data without instances nothing is run and the empty
    list is returned. *)
Theorem unchecked_parameter_failures :
  (forall (z : Z) (data : list (list T)), (z < 0)%Z ->
     _extract_wavelet_coefficients z data =
       match data with [] => Ok [] | _ :: _ => Raise AttributeError end) /\
  (forall (s : string) (x : list T) (data : list (list T)),
     _extract_wavelet_coefficients (PyStr s) (x :: data) =
       Raise (TypeError "'str' object cannot be interpreted as an integer")) /\
  (forall (x : list T) (data : list (list T)),
     _extract_wavelet_coefficients PyNone (x :: data) =
       Raise (TypeError "'NoneType' object cannot be interpreted as an integer")) /\
  (forall o : pyobj, _extract_wavelet_coefficients (T:=T) o [] = Ok []).
Proof.
  split; [|split; [|split]]; try done.
  intros z data Hz. by apply extract_loop_negative.
Qed.

(** X3.  The engine never subscripts out of range: on every sequence, the
    empty one included, both functions return, and they return sequences
    of one and the same length: 1 for a one-element input, [floor(n/2)]
    otherwise. *)
Theorem engine_never_raises (arr : list T) :
  exists approx detail,
    _get_approx_coefficients arr = Ok approx /\
    _get_wavelet_coefficients arr = Ok detail /\
    length approx = length detail /\
    length approx = (if length arr =? 1 then 1 else length arr / 2) /\
    (arr = [] -> approx = [] /\ detail = []).
Proof.
  exists (one_level fadd arr), (one_level fsub arr).
  split; [apply get_approx_eq|]. split; [apply get_wavelet_eq|].
  split; [by rewrite !one_level_len|]. split; [by rewrite one_level_len|].
  by intros ->.
Qed.

Lemma one_level_snoc_even op (arr : list T) (z : T) :
  2 <= length arr -> Nat.Even (length arr) ->
  one_level op (arr ++ [z]) = one_level op arr.
Proof.
  intros Hlen Hev.
  rewrite !one_level_ge2 by (rewrite ?length_app; cbn; lia).
  by apply pairwise_snoc_even.
Qed.

(** X4.  The last sample of a series of odd length influences no coefficient,
    whatever the number of levels (at least one): the series with and
    without it have the same coefficient vector. *)
Theorem odd_tail_ignored (L : nat) (arr : list T) (z : T) :
  1 <= L -> 2 <= length arr -> Nat.Even (length arr) ->
  extract_instance (Z.of_nat L) (arr ++ [z]) = extract_instance (Z.of_nat L) arr.
Proof.
  intros HL Hlen Hev. rewrite !extract_instance_haar. f_equal.
  destruct L as [|L]; [lia|]. cbn [haar].
  by rewrite !one_level_snoc_even.
Qed.

(** X5.  The length of the coefficient vector depends on the length of the
    series and on [num_levels] only: two series of one length give
    vectors of one length, or fail with the same exception.  This is what
    makes the list handed to [np.asarray] rectangular. *)
Theorem equal_length_series_equal_length_coefficients (num_levels : pyobj)
    (x y : list T) :
  length x = length y ->
  match extract_instance num_levels x, extract_instance num_levels y with
  | Ok cx, Ok cy => length cx = length cy
  | Raise ex, Raise ey => ex = ey
  | _, _ => False
  end.
Proof.
  intros Hxy. unfold extract_instance.
  destruct (py_eq_zero num_levels); [done|].
  destruct (py_range num_levels) as [n|e]; cbn [mbind result_bind]; [|done].
  rewrite !levels_loop_spec. cbn [mbind result_bind].
  destruct n as [|n]; [done|].
  rewrite !app_nil_l, !rev_app_distr, !rev_involutive, !rev_concat_map_rev.
  change (length (stored_order (S n) x) = length (stored_order (S n) y)).
  by rewrite !stored_order_haar, !haar_coeff_len, Hxy.
Qed.

Lemma coeff_len_pow2 (k L : nat) : k <= L -> coeff_len L (2 ^ k) = 2 ^ k + (L - k).
Proof.
  revert L. induction k as [|k IH]; intros L Hk.
  - clear Hk. cbn [Nat.pow]. rewrite Nat.sub_0_r.
    induction L as [|L IHL]; [done|]. cbn [coeff_len]. unfold level_len at 1 2.
    cbn [Nat.eqb]. rewrite IHL. lia.
  - destruct L as [|L]; [lia|]. cbn [coeff_len].
    assert (level_len (2 ^ S k) = 2 ^ k) as ->.
    { unfold level_len. rewrite Nat.pow_succ_r'.
      pose proof (pow2_pos k).
      destruct (Nat.eqb_spec (2 * 2 ^ k) 1); [lia|].
      rewrite Nat.mul_comm. apply Nat.div_mul. lia. }
    rewrite IH by lia. rewrite Nat.pow_succ_r'. lia.
Qed.

(** X6.  A series of [2^k] samples transformed with [L >= k] levels gives
    [2^k + (L - k)] coefficients: as long as the series as far as the
    halving goes, and one more for every level after the approximation
    has shrunk to a single value. *)
Theorem power_of_two_length (k L : nat) (x : list T) :
  k <= L -> length x = 2 ^ k ->
  exists out,
    extract_instance (Z.of_nat L) x = Ok out /\
    length out = 2 ^ k + (L - k).
Proof.
  intros Hk Hx. exists (haar L x). split; [apply extract_instance_haar|].
  by rewrite haar_coeff_len, Hx, coeff_len_pow2.
Qed.

End Further.

(** ** Further properties of the transform of a panel *)

Section FurtherTransform.
Context {T : Type} `{Scalar T}.

Lemma check_parameters_accepted (o : pyobj) :
  _check_parameters o = Ok tt ->
  exists L : nat, forall x : list T, extract_instance o x = extract_instance (Z.of_nat L) x.
Proof.
  unfold _check_parameters. destruct o as [z|b|f|s|]; cbn [as_int]; try done.
  - destruct (Z.leb_spec z (-1)); [done|]. intros _.
    exists (Z.to_nat z). intros x. by rewrite Z2Nat.id by lia.
  - intros _. destruct b; [by exists 1|by exists 0].
Qed.

(** X7.  The transform works instance by instance.  On a dense panel with at
    least one instance and an accepted parameter it returns; the result
    has one row per instance, and row [i] is the coefficient vector of
    row [i] of the flattened panel, whatever the other instances hold. *)
Theorem transform_is_instancewise (o : pyobj) (n v t : nat) (X : ndarray T) :
  _check_parameters o = Ok tt ->
  nd_shape X = [n; v; t] -> length (nd_data X) = n * v * t -> 1 <= n ->
  exists Xt c,
    _transform o X = Ok Xt /\
    nd_shape Xt = [n; c; 1] /\
    length (nd_data Xt) = n * c /\
    forall i row,
      rows (NdArray [n; v * t] (nd_data X)) !! i = Some row ->
      exists out,
        extract_instance o row = Ok out /\
        rows (NdArray [n; c] (nd_data Xt)) !! i = Some out.
Proof.
  intros Hcheck Hs Hd Hn.
  destruct (check_parameters_accepted o Hcheck) as (L & HL).
  pose proof (transform_ok L n v t X Hs Hd Hn) as Hok.
  set (rs := rows (NdArray [n; v * t] (nd_data X))) in *.
  assert (length rs = n) as Hlen by apply rows_length.
  assert (Forall (fun r => length r = coeff_len L (v * t)) (map (haar L) rs)) as Hu.
  { apply Forall_map. eapply Forall_impl; [apply rows_uniform; lia|].
    intros r Hr. cbn. by rewrite haar_coeff_len, Hr. }
  assert (_transform o X = _transform (Z.of_nat L) X) as ->.
  { unfold _transform, _extract_wavelet_coefficients. rewrite Hcheck.
    assert (_check_parameters (Z.of_nat L) = Ok tt) as ->.
    { unfold _check_parameters. cbn [as_int].
      by destruct (Z.leb_spec (Z.of_nat L) (-1)); [lia|]. }
    cbn [mbind result_bind].
    destruct (convert_numpy3D_to_numpyflat X) as [arr|e]; [|done].
    cbn [mbind result_bind].
    assert (forall data res, extract_loop o data res
              = extract_loop (T:=T) (Z.of_nat L) data res) as ->; [|done].
    induction data as [|x data IH]; intros res; [done|].
    cbn [extract_loop]. rewrite HL.
    destruct (extract_instance (Z.of_nat L) x); [|done].
    cbn [mbind result_bind]. apply IH. }
  eexists _, (coeff_len L (v * t)). split; [exact Hok|]. split; [done|].
  cbn [nd_data]. split.
  { by rewrite (uniform_concat_length _ _ Hu), length_map, Hlen. }
  intros i row Hi. exists (haar L row).
  split; [by rewrite HL, extract_instance_haar|].
  rewrite <- Hlen, <- (length_map (haar L) rs).
  change (rows (NdArray [?k; ?w] ?d)) with (Broadcast.chunks k w d).
  rewrite BroadcastFacts.chunks_concat by done.
  change (map (haar L) rs) with (haar L <$> rs).
  by rewrite list_lookup_fmap, Hi.
Qed.

(** X8.  The variables of an instance are not transformed one by one: the
    panel is flattened first, so a panel of shape (n, v, t) is transformed
    exactly as the panel of shape (n, 1, v * t) with the same values, each
    instance's variables laid end to end as one series. *)
Theorem variables_are_flattened (o : pyobj) (n v t : nat) (d : list T) :
  _transform o (NdArray [n; v; t] d) = _transform o (NdArray [n; 1; v * t] d).
Proof.
  unfold _transform, convert_numpy3D_to_numpyflat. cbn [nd_shape nd_data].
  replace (n * 1 * (v * t)) with (n * v * t) by lia.
  by replace (1 * (v * t)) with (v * t) by lia.
Qed.

(** X9.  A panel without instances cannot be transformed: whatever accepted
    parameter is given, [np.asarray] of the empty list has one axis only
    and [transformedData.shape[1]] raises [IndexError]. *)
Theorem empty_panel_raises_index_error (o : pyobj) (v t : nat) :
  _check_parameters o = Ok tt ->
  _transform (T:=T) o (NdArray [0; v; t] []) = Raise IndexError.
Proof. intros Hcheck. unfold _transform. by rewrite Hcheck. Qed.

End FurtherTransform.

(** ** Further properties of the store program *)

Module StoreMore.

Section StoreMore.
Context {T : Type} `{Scalar T}.
Implicit Types (st : Store.state T).

Lemma bind_inv {A B} (m : Store.M T A) (f : A -> Store.M T B) st b st' :
  Store.bind m f st = (Ok b, st') ->
  exists a st1, m st = (Ok a, st1) /\ f a st1 = (Ok b, st').
Proof.
  unfold Store.bind. destruct (m st) as [[a|e] st1]; [|done].
  intros E. by exists a, st1.
Qed.

Lemma extract_loop_zero (data res : list Store.seqref) st :
  Store.extract_loop (T:=T) 0%Z data res st = (Ok (res ++ data), st).
Proof.
  revert res. induction data as [|x data IH]; intros res.
  - cbn. by rewrite app_nil_r.
  - cbn [Store.extract_loop]. unfold Store.extract_instance.
    cbn [py_eq_zero Z.eqb]. unfold Store.bind, Store.ret.
    rewrite IH. by rewrite <- app_assoc.
Qed.

(** X10.  What the extraction hands back.  With [num_levels == 0] the list
    [res] holds the very rows it was given, no copy is made and nothing is
    allocated; with any other parameter every instance that is processed
    gets a new list, which did not exist before the call. *)
Theorem extraction_aliases_rows_only_at_zero_levels :
  (forall (data : list Store.seqref) st,
     Store._extract_wavelet_coefficients 0 data st = (Ok data, st)) /\
  (forall (o : pyobj) (x s : Store.seqref) st st',
     py_eq_zero o = false ->
     Store.extract_instance o x st = (Ok s, st') ->
     exists l, s = Store.SList l /\ Store.heap st !! l = None /\
               is_Some (Store.heap st' !! l)).
Proof.
  split.
  - intros data st. apply (extract_loop_zero data [] st).
  - intros o x s st st' Hz E. unfold Store.extract_instance in E.
    rewrite Hz in E.
    destruct (StoreFacts.alloc_ok st (Store.PyList [])) as (coeffs & Hfresh & Ealloc).
    rewrite (StoreFacts.bind_ok _ _ _ _ _ Ealloc) in E.
    apply bind_inv in E as (n & st1 & E1 & E).
    apply bind_inv in E as ([a|] & st2 & E2 & E); [|done].
    apply bind_inv in E as ([] & st3 & E3 & E).
    apply bind_inv in E as ([] & st4 & E4 & E).
    apply bind_inv in E as ([] & st5 & E5 & E).
    injection E as <- <-. exists coeffs. split; [done|]. split; [done|].
    unfold Store.list_reverse in E5.
    apply bind_inv in E5 as (items & st6 & _ & E5).
    injection E5 as <-. cbn. rewrite lookup_insert_eq. by eexists.
Qed.

(** X11.  A call of the engine never returns its argument: the result is a
    list that did not exist before, also for a one-element input, where
    it is a new one-element list; the argument still holds the same
    elements afterwards. *)
Theorem engine_returns_new_list (arr : Store.seqref) (items : list T) st :
  Store.seq_denotes st arr items ->
  exists la ld st1 st2 approx detail,
    Store._get_approx_coefficients arr st = (Ok la, st1) /\
    Store._get_wavelet_coefficients arr st1 = (Ok ld, st2) /\
    _get_approx_coefficients items = Ok approx /\
    _get_wavelet_coefficients items = Ok detail /\
    Store.heap st2 !! la = Some (Store.PyList approx) /\
    Store.heap st2 !! ld = Some (Store.PyList detail) /\
    Store.heap st !! la = None /\ Store.heap st !! ld = None /\ la <> ld /\
    Store.seq_loc arr <> la /\ Store.seq_loc arr <> ld /\
    Store.seq_denotes st2 arr items.
Proof.
  intros Harr.
  destruct (StoreFacts.get_approx_sim st arr items Harr)
    as (la & st1 & Ea & Hla & Hsub1 & Hla1 & _).
  pose proof (StoreFacts.seq_denotes_mono _ _ _ _ Hsub1 Harr) as Harr1.
  destruct (StoreFacts.get_wavelet_sim st1 arr items Harr1)
    as (ld & st2 & Ed & Hld & Hsub2 & Hld2 & _).
  exists la, ld, st1, st2, (one_level fadd items), (one_level fsub items).
  pose proof (StoreFacts.seq_denotes_loc _ _ _ Harr) as [o Ho].
  repeat split; try done.
  - apply get_approx_eq.
  - apply get_wavelet_eq.
  - by eapply lookup_weaken.
  - destruct (Store.heap st !! ld) as [o'|] eqn:E; [|done].
    eapply lookup_weaken in E; [|exact Hsub1]. congruence.
  - congruence.
  - congruence.
  - intros <-. eapply lookup_weaken in Ho; [|exact Hsub1]. congruence.
  - by eapply StoreFacts.seq_denotes_mono.
Qed.

(** X12.  The program with objects changed in place computes what the
    functional description computes: started on an array object that
    denotes the array [a], it returns an object denoting [_transform] of
    [a], or raises the exception [_transform] raises. *)
Theorem store_program_agrees (o : pyobj) (X : Store.ndview) (a : ndarray T) st :
  Store.denotes st X a ->
  match _transform o a with
  | Ok a' =>
      exists Xt st',
        Store._transform o X st = (Ok Xt, st') /\
        Store.denotes st' Xt a' /\ Store.denotes st' X a
  | Raise e => exists st', Store._transform o X st = (Raise e, st')
  end.
Proof.
  intros HX. pose proof (StoreFacts.transform_sim o st X a HX) as Hsim.
  destruct (_transform o a) as [a'|e]; [|done].
  destruct Hsim as (Xt & st' & E & HXt & _).
  exists Xt, st'. split; [done|]. split; [done|].
  destruct (StoreFacts.transform_keeps o X st) as [Hkeep _].
  rewrite E in Hkeep. by eapply StoreFacts.denotes_mono.
Qed.

End StoreMore.

End StoreMore.

(** ** The transform as a linear map, in exact arithmetic *)

Section RealTransform.
Local Open Scope R_scope.

Lemma inv_sqrt2_sq : / sqrt 2 * / sqrt 2 = / 2.
Proof. rewrite <- Rinv_mult, sqrt_sqrt by lra. done. Qed.

Lemma sum_sq_cons (v : R) (l : list R) : sum_sq (v :: l) = v * v + sum_sq l.
Proof. reflexivity. Qed.

Lemma sum_sq_app (l k : list R) : sum_sq (l ++ k) = sum_sq l + sum_sq k.
Proof.
  induction l as [|v l IH]; cbn [app].
  - change (sum_sq []) with 0. lra.
  - rewrite !sum_sq_cons, IH. lra.
Qed.

Lemma pairwise_energy (arr : list R) :
  Nat.Even (length arr) ->
  sum_sq (pairwise fadd arr) + sum_sq (pairwise fsub arr) = sum_sq arr.
Proof.
  induction arr as [| a | a b l IH] using list_pair_ind; intros Hev.
  - cbn [pairwise]. change (sum_sq []) with 0. lra.
  - destruct Hev as [k Hk]. cbn in Hk. lia.
  - assert (Nat.Even (length l)) as Hl.
    { destruct Hev as [k Hk]. cbn in Hk. exists (k - 1)%nat. lia. }
    specialize (IH Hl). cbn [pairwise]. rewrite !sum_sq_cons, <- IH.
    cbn [fadd fsub fdiv sqrt2 real_scalar]. unfold Rdiv.
    pose proof inv_sqrt2_sq as Hi. set (i := / sqrt 2) in *.
    replace ((a + b) * i * ((a + b) * i)) with ((a + b) * (a + b) * (i * i)) by ring.
    replace ((a - b) * i * ((a - b) * i)) with ((a - b) * (a - b) * (i * i)) by ring.
    rewrite Hi. field.
Qed.

Lemma even_multiple_of_pow2 (m L : nat) : Nat.Even (m * 2 ^ S L).
Proof. exists (m * 2 ^ L)%nat. rewrite Nat.pow_succ_r'. lia. Qed.

Lemma one_level_even op (x : list R) :
  Nat.Even (length x) -> one_level op x = pairwise op x.
Proof.
  intros [k Hk]. destruct x as [|a [|b l]]; try done. cbn in Hk. lia.
Qed.

Lemma pairwise_length_even op (x : list R) (n : nat) :
  length x = (2 * n)%nat -> length (pairwise op x) = n.
Proof.
  intros Hx. rewrite pairwise_length, Hx, Nat.mul_comm. apply Nat.div_mul. lia.
Qed.

Lemma haar_energy (L m : nat) (x : list R) :
  length x = (m * 2 ^ L)%nat -> sum_sq (haar L x) = sum_sq x.
Proof.
  revert x. induction L as [|L IH]; intros x Hx; [done|].
  pose proof (even_multiple_of_pow2 m L) as Hev. rewrite <- Hx in Hev.
  cbn [haar]. rewrite sum_sq_app, !one_level_even by done.
  rewrite IH.
  - by apply pairwise_energy.
  - apply pairwise_length_even. rewrite Hx, Nat.pow_succ_r'. lia.
Qed.

(** X13.  Energy.  When [2^L] divides the length of the series, the sum of the
    squares of the coefficients is the sum of the squares of the samples:
    dividing by [sqrt(2)] makes every level an orthonormal change of
    basis. *)
Theorem energy_preserved (L m : nat) (x : list R) :
  length x = (m * 2 ^ L)%nat ->
  exists out,
    extract_instance (Z.of_nat L) x = Ok out /\ sum_sq out = sum_sq x.
Proof.
  intros Hx. exists (haar L x). split; [apply extract_instance_haar|].
  by apply (haar_energy L m).
Qed.

Lemma pair_injective (a b a' b' : R) :
  (a + b) / sqrt 2 = (a' + b') / sqrt 2 ->
  (a - b) / sqrt 2 = (a' - b') / sqrt 2 ->
  a = a' /\ b = b'.
Proof.
  intros Hs Hd. pose proof sqrt2_neq_0 as Hne.
  apply (Rmult_eq_compat_r (sqrt 2)) in Hs, Hd.
  unfold Rdiv in Hs, Hd. rewrite !Rmult_assoc, Rinv_l, !Rmult_1_r in Hs, Hd by done.
  split; lra.
Qed.

Lemma pairwise_injective (x y : list R) :
  length x = length y -> Nat.Even (length x) ->
  pairwise fadd x = pairwise fadd y -> pairwise fsub x = pairwise fsub y ->
  x = y.
Proof.
  revert y. induction x as [| a | a b l IH] using list_pair_ind;
    intros y Hlen Hev Ha Hd.
  - by destruct y.
  - destruct Hev as [k Hk]. cbn in Hk. lia.
  - destruct y as [|a' [|b' l']]; try done.
    cbn [pairwise fadd fsub fdiv sqrt2 real_scalar] in Ha, Hd.
    injection Ha as Ha Ha'. injection Hd as Hd Hd'.
    destruct (pair_injective a b a' b' Ha Hd) as [-> ->].
    f_equal. f_equal. apply IH; try done.
    + cbn in Hlen. lia.
    + destruct Hev as [k Hk]. cbn in Hk. exists (k - 1)%nat. lia.
Qed.

Lemma haar_injective (L m : nat) (x y : list R) :
  length x = (m * 2 ^ L)%nat -> length y = (m * 2 ^ L)%nat ->
  haar L x = haar L y -> x = y.
Proof.
  revert x y. induction L as [|L IH]; intros x y Hx Hy E; [done|].
  pose proof (even_multiple_of_pow2 m L) as Hev.
  assert (Nat.Even (length x)) as Hex by (by rewrite Hx).
  assert (Nat.Even (length y)) as Hey by (by rewrite Hy).
  cbn [haar] in E. rewrite !one_level_even in E by done.
  assert (forall op (u : list R), length u = (m * 2 ^ S L)%nat ->
            length (pairwise op u) = (m * 2 ^ L)%nat) as Hhalf.
  { intros op u Hu. apply pairwise_length_even. rewrite Hu, Nat.pow_succ_r'. lia. }
  apply app_inj_2 in E as [Ea Ed]; [|by rewrite !Hhalf].
  apply pairwise_injective; try done; [congruence|].
  apply IH; [by apply Hhalf..|done].
Qed.

(** X14.  No information is lost.  When [2^L] divides the length, two series
    of that length with the same coefficient vector are the same series. *)
Theorem coefficients_determine_series (L m : nat) (x y : list R) :
  length x = (m * 2 ^ L)%nat -> length y = (m * 2 ^ L)%nat ->
  extract_instance (Z.of_nat L) x = extract_instance (Z.of_nat L) y ->
  x = y.
Proof.
  intros Hx Hy E. rewrite !extract_instance_haar in E. injection E as E.
  by apply (haar_injective L m).
Qed.

Lemma pairwise_plus (op : R -> R -> R) (x y : list R) :
  (forall a b a' b', op (a + a') (b + b') = op a b + op a' b') ->
  pairwise op (zip_with Rplus x y) = zip_with Rplus (pairwise op x) (pairwise op y).
Proof.
  intros Hop. revert y.
  induction x as [| a | a b l IH] using list_pair_ind; intros y.
  - done.
  - by destruct y as [|a' [|b' l']].
  - destruct y as [|a' [|b' l']]; try done.
    cbn [zip_with pairwise]. rewrite IH, Hop. f_equal.
    cbn [fdiv sqrt2 real_scalar]. unfold Rdiv. ring.
Qed.

Lemma pairwise_scale (op : R -> R -> R) (c : R) (x : list R) :
  (forall a b, op (c * a) (c * b) = c * op a b) ->
  pairwise op (map (Rmult c) x) = map (Rmult c) (pairwise op x).
Proof.
  intros Hop. induction x as [| a | a b l IH] using list_pair_ind; try done.
  cbn [map pairwise]. rewrite IH, Hop. f_equal.
  cbn [fdiv sqrt2 real_scalar]. unfold Rdiv. ring.
Qed.

Lemma one_level_plus (op : R -> R -> R) (x y : list R) :
  (forall a b a' b', op (a + a') (b + b') = op a b + op a' b') ->
  length x = length y ->
  one_level op (zip_with Rplus x y) = zip_with Rplus (one_level op x) (one_level op y).
Proof.
  intros Hop Hlen.
  destruct x as [|a [|b l]], y as [|a' [|b' l']]; try done.
  by apply (pairwise_plus op (a :: b :: l) (a' :: b' :: l')).
Qed.

Lemma one_level_scale (op : R -> R -> R) (c : R) (x : list R) :
  (forall a b, op (c * a) (c * b) = c * op a b) ->
  one_level op (map (Rmult c) x) = map (Rmult c) (one_level op x).
Proof.
  intros Hop. destruct x as [|a [|b l]]; try done.
  by apply (pairwise_scale op c (a :: b :: l)).
Qed.

Lemma haar_plus (L : nat) (x y : list R) :
  length x = length y ->
  haar L (zip_with Rplus x y) = zip_with Rplus (haar L x) (haar L y).
Proof.
  revert x y. induction L as [|L IH]; intros x y Hlen; [done|].
  cbn [haar].
  rewrite !one_level_plus by (done || (intros; cbn; ring)).
  rewrite IH by (by rewrite !one_level_len, Hlen).
  rewrite zip_with_app; [done|].
  by rewrite !haar_coeff_len, !one_level_len, Hlen.
Qed.

Lemma haar_scale (L : nat) (c : R) (x : list R) :
  haar L (map (Rmult c) x) = map (Rmult c) (haar L x).
Proof.
  revert x. induction L as [|L IH]; intros x; [done|].
  cbn [haar]. rewrite !one_level_scale by (intros; cbn; ring).
  by rewrite IH, map_app.
Qed.

(** X15.  Linearity.  The coefficient vector of the sum of two series of one
    length is the sum of their coefficient vectors, and scaling a series
    scales its coefficients, for every number of levels. *)
Theorem transform_is_linear (L : nat) (c : R) (x y : list R) :
  length x = length y ->
  exists cx cy,
    extract_instance (Z.of_nat L) x = Ok cx /\
    extract_instance (Z.of_nat L) y = Ok cy /\
    extract_instance (Z.of_nat L) (zip_with Rplus x y) = Ok (zip_with Rplus cx cy) /\
    extract_instance (Z.of_nat L) (map (Rmult c) x) = Ok (map (Rmult c) cx).
Proof.
  intros Hlen. exists (haar L x), (haar L y).
  rewrite !extract_instance_haar. repeat split.
  - by rewrite haar_plus.
  - by rewrite haar_scale.
Qed.

Lemma pairwise_constant (op : R -> R -> R) (n : nat) (c : R) :
  pairwise op (replicate (2 * n) c) = replicate n (op c c / sqrt 2).
Proof.
  induction n as [|n IH]; [done|].
  replace (2 * S n)%nat with (S (S (2 * n))) by lia.
  cbn [replicate pairwise]. by rewrite IH.
Qed.

Lemma double_over_sqrt2 (c : R) : (c + c) / sqrt 2 = c * sqrt 2.
Proof.
  pose proof sqrt2_neq_0 as Hne.
  assert (sqrt 2 * sqrt 2 = 2) as Hs by (apply sqrt_sqrt; lra).
  apply (Rmult_eq_reg_r (sqrt 2)); [|done].
  unfold Rdiv. rewrite !Rmult_assoc, Rinv_l, Hs by done. lra.
Qed.

Lemma haar_constant (L m : nat) (c : R) :
  haar L (replicate (m * 2 ^ L) c) =
    replicate m (c * sqrt 2 ^ L) ++ replicate (m * 2 ^ L - m) 0.
Proof.
  revert c. induction L as [|L IH]; intros c.
  - cbn [haar Nat.pow pow]. rewrite Nat.mul_1_r, Nat.sub_diag, Rmult_1_r.
    by rewrite app_nil_r.
  - cbn [haar]. rewrite !one_level_even
      by (rewrite length_replicate; apply even_multiple_of_pow2).
    replace (m * 2 ^ S L)%nat with (2 * (m * 2 ^ L))%nat
      by (rewrite Nat.pow_succ_r'; lia).
    rewrite !pairwise_constant. cbn [fadd fsub real_scalar].
    rewrite double_over_sqrt2, IH.
    replace (c - c) with 0 by lra.
    replace (0 / sqrt 2) with 0 by (unfold Rdiv; ring).
    rewrite <- app_assoc, <- replicate_add. f_equal.
    + f_equal. cbn [pow]. ring.
    + f_equal. pose proof (pow2_pos L). nia.
Qed.

(** X16.  A constant series has no detail.  When the series is [m * 2^L]
    copies of one value [c], the coefficient vector is [m] copies of
    [c * sqrt(2)^L] followed by zeros only. *)
Theorem constant_series_has_zero_detail (L m : nat) (c : R) :
  extract_instance (Z.of_nat L) (replicate (m * 2 ^ L) c) =
    Ok (replicate m (c * sqrt 2 ^ L) ++ replicate (m * 2 ^ L - m) 0).
Proof. by rewrite extract_instance_haar, haar_constant. Qed.

End RealTransform.

(** ** Concrete runs *)

(** Decimal literals below denote the nearest binary64 value. *)
#[local] Set Warnings "-inexact-float".

(** In binary64 the same run on [1.0, 2.0, 3.0, 4.0] with one level. *)
Example extract_1234_binary64 :
  extract_instance 1 [1; 2; 3; 4]%float =
    Ok [2.1213203435596424; 4.9497474683058327;
        -0.70710678118654746; -0.70710678118654746]%float.
Proof. vm_compute. reflexivity. Qed.

(** Two levels on the series [4, 6, 10, 12, 8, 6, 5, 5]: the level-2
    approximation (16, 12 up to rounding), the level-2 detail (-6, 2) and
    then the level-1 detail. *)
Example extract_two_levels_binary64 :
  extract_instance 2 [4; 6; 10; 12; 8; 6; 5; 5]%float =
    Ok [15.999999999999998; 11.999999999999998; -6; 2.0000000000000004;
        -1.4142135623730949; -1.4142135623730949; 1.4142135623730949; 0]%float.
Proof. vm_compute. reflexivity. Qed.

(** In binary64 the recovery identity of C3 holds up to rounding only:
    from the pair (0.1, 0.2) the first element comes back one unit in the
    last place higher. *)
Remark recovery_rounds_in_binary64 :
  let p := fdiv (fadd 0.1%float 0.2%float) sqrt2 in
  let d := fdiv (fsub 0.1%float 0.2%float) sqrt2 in
  (PrimFloat.div (PrimFloat.mul (PrimFloat.add p d) (PrimFloat.sqrt 2)) 2
   =? 0.1)%float = false.
Proof. vm_compute. reflexivity. Qed.

(** C1: the order the specification describes is not the order of the
    code.  On [1.0, 2.0, 3.0, 4.0] with one level the code returns the two
    approximation coefficients first and the two detail coefficients
    last; the described order has them the other way round. *)
Lemma spec_order_counterexample :
  extract_instance 1 [1; 2; 3; 4]%float =
    Ok [2.1213203435596424; 4.9497474683058327;
        -0.70710678118654746; -0.70710678118654746]%float /\
  spec_order 1 [1; 2; 3; 4]%float =
    [-0.70710678118654746; -0.70710678118654746;
     2.1213203435596424; 4.9497474683058327]%float /\
  extract_instance 1 [1; 2; 3; 4]%float <> Ok (spec_order 1 [1; 2; 3; 4]%float).
Proof.
  split; [vm_compute; reflexivity|]. split; [vm_compute; reflexivity|].
  intros E.
  apply (f_equal (fun r => match r with
                           | Ok (v :: _) => PrimFloat.ltb v 0
                           | _ => false
                           end)) in E.
  vm_compute in E. discriminate.
Qed.

Lemma stored_coefficient_order_witness :
  extract_instance 2 [4; 6; 10; 12; 8; 6; 5; 5]%float =
    Ok (approx_level 2 [4; 6; 10; 12; 8; 6; 5; 5]%float ++
        detail_level 2 [4; 6; 10; 12; 8; 6; 5; 5]%float ++
        detail_level 1 [4; 6; 10; 12; 8; 6; 5; 5]%float).
Proof.
  destruct (stored_coefficient_order 2 [4; 6; 10; 12; 8; 6; 5; 5]%float)
    as (out & E & -> & _); [lia|].
  change (Z.of_nat 2) with 2%Z in E.
  rewrite E. cbn [seq rev app map concat]. by rewrite app_nil_r.
Defined.

Lemma length_preserved_when_divisible_witness :
  exists out,
    extract_instance 2 [4; 6; 10; 12; 8; 6; 5; 5]%float = Ok out /\
    length out = 8.
Proof.
  destruct (length_preserved_when_divisible
              [4; 6; 10; 12; 8; 6; 5; 5]%float 2 2)
    as (out & E & Hlen & _); [lia | lia | reflexivity |].
  exists out. split; assumption.
Defined.

Lemma singleton_series_grows_witness :
  exists out,
    extract_instance 3 [7]%float = Ok out /\
    length out = 4 /\ Forall (fun e => e = 7%float) out.
Proof. apply (singleton_series_grows 7%float 3). lia. Defined.

Lemma haar_pair_recovery_witness :
  exists approx detail : list R,
    _get_approx_coefficients [1; 2]%R = Ok approx /\
    _get_wavelet_coefficients [1; 2]%R = Ok detail /\
    forall i, i < 1 ->
      exists a b p d : R,
        [1; 2]%R !! (2 * i) = Some a /\ [1; 2]%R !! (2 * i + 1) = Some b /\
        approx !! i = Some p /\ detail !! i = Some d /\
        a = ((p + d) * sqrt 2 / 2)%R /\ b = ((p - d) * sqrt 2 / 2)%R.
Proof. apply (proj1 haar_pair_recovery [1; 2]%R). simpl. lia. Defined.

Lemma zero_levels_identity_witness :
  exists Xt,
    _transform 0 (NdArray [2; 1; 2] [1; 2; 3; 4]%float) = Ok Xt /\
    nd_data Xt = [1; 2; 3; 4]%float.
Proof.
  destruct (proj2 zero_levels_identity
              (NdArray [2; 1; 2] [1; 2; 3; 4]%float) 2 1 2)
    as (Xt & E & D & _); [reflexivity | reflexivity | lia |].
  exists Xt. split; assumption.
Defined.

(** A store holding one array of two instances, transformed with one
    level: the run returns, the buffer of the input still holds its four
    values, and the result lives elsewhere. *)
Lemma transform_does_not_mutate_witness :
  let st := Store.State {[ 1%positive := Store.NdBuffer [1; 2; 3; 4]%float ]} [] in
  let X := Store.NdView 1%positive 0 [2; 1; 2] in
  exists Xt,
    (Store._transform 1 X st).1 = Ok Xt /\
    Store.heap (Store._transform 1 X st).2 !! 1%positive
      = Some (Store.NdBuffer [1; 2; 3; 4]%float) /\
    Store.v_buf Xt <> 1%positive.
Proof.
  intros st X.
  destruct (StoreFacts.transform_does_not_mutate 1%Z X st)
    as (Hkeep & _ & Hrun).
  destruct (Hrun (NdArray [2; 1; 2] [1; 2; 3; 4]%float)
              (NdArray [2; 2; 1]
                 (concat (map (haar 1)
                    (rows (NdArray [2; 1 * 2] [1; 2; 3; 4]%float))))))
    as (Xt & E & _ & _ & Hne).
  - exists [1; 2; 3; 4]%float. repeat split; cbn; lia.
  - apply (transform_ok 1 2 1 2); [reflexivity | reflexivity | lia].
  - exists Xt. split; [exact E|]. split; [|exact Hne].
    apply Hkeep. reflexivity.
Defined.

Lemma parameters_checked_first_witness :
  let st := Store.State {[ 1%positive := Store.NdBuffer (replicate 20 1%float) ]} [] in
  let X := Store.NdView 1%positive 0 [10; 1; 2] in
  Store._transform (-1) X st =
    (Raise (ValueError "num_levels must have the valueof at least 0"), st) /\
  exists a' Xt st',
    _transform 3 (NdArray [10; 1; 2] (replicate 20 1%float)) = Ok a' /\
    Store._transform 3 X st = (Ok Xt, st') /\
    Store.denotes st' Xt a'.
Proof.
  intros st X.
  destruct (StoreFacts.parameters_checked_first (T:=float))
    as (Hneg & _ & _ & Hten).
  split.
  - apply (Hneg (-1)%Z X st (NdArray [] [])). lia.
  - apply (Hten X st (NdArray [10; 1; 2] (replicate 20 1%float)) 1 2).
    + exists (replicate 20 1%float). repeat split; cbn; lia.
    + reflexivity.
Defined.

(** The scenario with the forecaster that repeats the last value, on
    ten series of two observations, through the long table. *)
Lemma vectorization_series_to_panel_witness :
  exists y y_pred forecasts,
    Broadcast.convert
      (Broadcast.NestedUniv (replicate 10 [[1; 2]%float]))
      Broadcast.nested_univ Broadcast.pd_multiindex = Ok y /\
    Broadcast.fit_then_predict Broadcast.last_value_forecaster y [1; 2; 3]%Z
      = Ok y_pred /\
    Broadcast.check_is_mtype y_pred Broadcast.pd_multiindex
      = (true, Some (Broadcast.Metadata 10 true)) /\
    Broadcast.decode y_pred = Ok forecasts /\
    length forecasts = 10 /\
    Forall (Forall (fun f => length f = 3)) forecasts.
Proof.
  apply (BroadcastFacts.vectorization_series_to_panel
           Broadcast.last_value_forecaster Broadcast.pd_multiindex 2
           (replicate 10 [[1; 2]%float])).
  - reflexivity.
  - lia.
  - intros inst s Hinst Hs.
    apply elem_of_replicate in Hinst as [-> _].
    apply list_elem_of_singleton in Hs as ->. reflexivity.
  - intros mdl fh. exists (map (fun _ => mdl) fh).
    split; [reflexivity | apply length_map].
Defined.

(** *** Runs for the further properties *)

Lemma unchecked_parameter_failures_witness :
  _extract_wavelet_coefficients (-2) [[1; 2]%float; [3; 4]%float]
    = Raise AttributeError.
Proof.
  apply (proj1 (unchecked_parameter_failures (T:=float)) (-2)%Z
           [[1; 2]%float; [3; 4]%float]).
  lia.
Defined.

Lemma engine_never_raises_witness :
  exists approx detail : list float,
    _get_approx_coefficients [] = Ok approx /\
    _get_wavelet_coefficients [] = Ok detail /\
    approx = [] /\ detail = [].
Proof.
  destruct (engine_never_raises (T:=float) [])
    as (approx & detail & Ea & Ed & _ & _ & Hnil).
  exists approx, detail. destruct (Hnil eq_refl) as [-> ->]. by repeat split.
Defined.

Lemma odd_tail_ignored_witness :
  extract_instance 2 ([1; 2; 3; 4]%float ++ [9]%float)
    = extract_instance 2 [1; 2; 3; 4]%float.
Proof.
  apply (odd_tail_ignored 2 [1; 2; 3; 4]%float 9%float).
  - lia.
  - simpl. lia.
  - exists 2. reflexivity.
Defined.

Lemma equal_length_series_equal_length_coefficients_witness :
  match extract_instance 2 [1; 2; 3]%float, extract_instance 2 [4; 5; 6]%float with
  | Ok cx, Ok cy => length cx = length cy
  | Raise ex, Raise ey => ex = ey
  | _, _ => False
  end.
Proof.
  apply (equal_length_series_equal_length_coefficients 2%Z
           [1; 2; 3]%float [4; 5; 6]%float).
  reflexivity.
Defined.

Lemma power_of_two_length_witness :
  exists out, extract_instance 3 [1; 2]%float = Ok out /\ length out = 2 + 2.
Proof.
  apply (power_of_two_length 1 3 [1; 2]%float); [lia | reflexivity].
Defined.

Lemma transform_is_instancewise_witness :
  exists Xt c,
    _transform 1 (NdArray [2; 1; 2] [1; 2; 3; 4]%float) = Ok Xt /\
    nd_shape Xt = [2; c; 1] /\
    length (nd_data Xt) = 2 * c.
Proof.
  destruct (transform_is_instancewise 1%Z 2 1 2
              (NdArray [2; 1; 2] [1; 2; 3; 4]%float))
    as (Xt & c & E & Hs & Hl & _); [reflexivity | reflexivity | reflexivity | lia |].
  by exists Xt, c.
Defined.

Lemma empty_panel_raises_index_error_witness :
  _transform 3 (NdArray [0; 1; 8] ([] : list float)) = Raise IndexError.
Proof. apply (empty_panel_raises_index_error (T:=float) 3%Z 1 8). reflexivity. Defined.

Lemma extraction_aliases_rows_only_at_zero_levels_witness :
  let st := Store.State {[ 1%positive := Store.NdBuffer [1; 2; 3; 4]%float ]} [] in
  exists s st',
    Store.extract_instance 1 (Store.SRow 1%positive 0 4) st = (Ok s, st') /\
    exists l, s = Store.SList l /\ Store.heap st !! l = None /\
              is_Some (Store.heap st' !! l).
Proof.
  intros st.
  destruct (Store.extract_instance 1 (Store.SRow 1%positive 0 4) st)
    as [[s|e] st'] eqn:E.
  - exists s, st'. split; [reflexivity|].
    apply (proj2 (StoreMore.extraction_aliases_rows_only_at_zero_levels (T:=float))
             1%Z (Store.SRow 1%positive 0 4) s st st'); [reflexivity | exact E].
  - exfalso.
    pose proof (StoreFacts.extract_instance_sim 1%Z st
                  (Store.SRow 1%positive 0 4) [1; 2; 3; 4]%float) as Hsim.
    rewrite (extract_instance_haar 1) in Hsim.
    destruct Hsim as (s & st2 & E2 & _).
    + exists [1; 2; 3; 4]%float. repeat split; cbn; lia.
    + rewrite E2 in E. discriminate.
Defined.

Lemma engine_returns_new_list_witness :
  let st := Store.State {[ 1%positive := Store.PyList [5]%float ]} [] in
  exists la ld st1 st2,
    Store._get_approx_coefficients (Store.SList 1%positive) st = (Ok la, st1) /\
    Store._get_wavelet_coefficients (Store.SList 1%positive) st1 = (Ok ld, st2) /\
    Store.heap st2 !! la = Some (Store.PyList [5]%float) /\
    Store.heap st2 !! ld = Some (Store.PyList [5]%float) /\
    la <> 1%positive /\ ld <> 1%positive /\ la <> ld.
Proof.
  intros st.
  destruct (StoreMore.engine_returns_new_list (Store.SList 1%positive) [5]%float st)
    as (la & ld & st1 & st2 & approx & detail & Ea & Ed & Pa & Pd
        & Ha & Hd & _ & _ & Hne & Hla & Hld & _); [reflexivity|].
  injection Pa as <-. injection Pd as <-.
  exists la, ld, st1, st2. repeat split; try done; by apply not_eq_sym.
Defined.

Lemma store_program_agrees_witness :
  let st := Store.State {[ 1%positive := Store.NdBuffer [1; 2; 3; 4]%float ]} [] in
  let X := Store.NdView 1%positive 0 [2; 1; 2] in
  exists a' Xt st',
    _transform 1 (NdArray [2; 1; 2] [1; 2; 3; 4]%float) = Ok a' /\
    Store._transform 1 X st = (Ok Xt, st') /\
    Store.denotes st' Xt a'.
Proof.
  intros st X.
  pose proof (StoreMore.store_program_agrees 1%Z X
                (NdArray [2; 1; 2] [1; 2; 3; 4]%float) st) as Hagree.
  rewrite (transform_ok 1 2 1 2) in Hagree by (reflexivity || lia).
  destruct Hagree as (Xt & st' & E & HXt & _).
  - exists [1; 2; 3; 4]%float. repeat split; cbn; lia.
  - eexists _, Xt, st'. split; [|split; [exact E|exact HXt]].
    apply (transform_ok 1 2 1 2); reflexivity || lia.
Defined.

Lemma energy_preserved_witness :
  exists out,
    extract_instance 1 [1; 2; 3; 4]%R = Ok out /\
    sum_sq out = sum_sq [1; 2; 3; 4]%R.
Proof. apply (energy_preserved 1 2 [1; 2; 3; 4]%R). reflexivity. Defined.

Lemma coefficients_determine_series_witness :
  [1; 2]%R = [1; 1 + 1]%R.
Proof.
  apply (coefficients_determine_series 1 1 [1; 2]%R [1; 1 + 1]%R).
  - reflexivity.
  - reflexivity.
  - replace (1 + 1)%R with 2%R by lra. reflexivity.
Defined.

Lemma transform_is_linear_witness :
  exists cx cy,
    extract_instance 1 [1; 2]%R = Ok cx /\
    extract_instance 1 [3; 5]%R = Ok cy /\
    extract_instance 1 (zip_with Rplus [1; 2]%R [3; 5]%R)
      = Ok (zip_with Rplus cx cy) /\
    extract_instance 1 (map (Rmult 2) [1; 2]%R) = Ok (map (Rmult 2) cx).
Proof. apply (transform_is_linear 1 2%R [1; 2]%R [3; 5]%R). reflexivity. Defined.

(** The contract at the binary64 input [1.0, 2.0, 3.0]. *)
Lemma one_level_contract_witness :
  exists approx detail : list float,
    _get_approx_coefficients [1; 2; 3]%float = Ok approx /\
    _get_wavelet_coefficients [1; 2; 3]%float = Ok detail /\
    length approx = 1 /\ length detail = 1.
Proof.
  destruct (proj1 (one_level_contract (T:=float)) [1; 2; 3]%float)
    as (approx & detail & Ha & Hd & La & Ld & _); [simpl; lia|].
  exists approx, detail. repeat split; assumption.
Defined.
